(** * process-issue-files.ts: the attachment ingestion pipeline

    A shallow embedding of [.github/scripts/process-issue-files.ts] and the
    properties of its components: URL extraction, domain allow-listing,
    bounded download, filename sanitisation, collision-free naming and the
    orchestrating [main].

    JavaScript strings are sequences of UTF-16 code units; they are modelled
    as [list N], one number per code unit.  The script runs under Node on a
    POSIX host, so [path] is [path.posix]. *)

From Stdlib Require Import String Ascii DecimalString DecimalN.
From Stdlib Require Import List NArith ZArith Lia Bool.
Import ListNotations.

Set Implicit Arguments.

(* ------------------------------------------------------------------ *)
(** * JavaScript strings *)
(* ------------------------------------------------------------------ *)

Module JS.

Definition jsstring := list N.

(** A literal of the source, code unit by code unit. *)
Fixpoint js (s : string) : jsstring :=
  match s with
  | EmptyString => []
  | String a s' => N_of_ascii a :: js s'
  end.

(** [a === b] on strings. *)
Fixpoint streq (a b : jsstring) : bool :=
  match a, b with
  | [], [] => true
  | x :: a', y :: b' => N.eqb x y && streq a' b'
  | _, _ => false
  end.

(** [!s] for a string: only the empty string is falsy. *)
Definition isEmpty (s : jsstring) : bool :=
  match s with [] => true | _ :: _ => false end.

(** [s.startsWith(p)]. *)
Fixpoint startsWith (p s : jsstring) : bool :=
  match p, s with
  | [], _ => true
  | x :: p', y :: s' => N.eqb x y && startsWith p' s'
  | _ :: _, [] => false
  end.

(** [s.endsWith(p)]. *)
Definition endsWith (p s : jsstring) : bool :=
  startsWith (rev p) (rev s).

(** [s.includes(p)]. *)
Fixpoint includes (p s : jsstring) : bool :=
  startsWith p s ||
  match s with
  | [] => false
  | _ :: s' => includes p s'
  end.

(** [s.split(sep)] for a one-character separator, as its first piece and the
    pieces after it: the result of [split] is never the empty array. *)
Fixpoint splitParts (sep : N) (s : jsstring) : jsstring * list jsstring :=
  match s with
  | [] => ([], [])
  | c :: s' =>
      let (w, ws) := splitParts sep s' in
      if N.eqb c sep then ([], w :: ws) else (c :: w, ws)
  end.

Definition split (sep : N) (s : jsstring) : list jsstring :=
  let (w, ws) := splitParts sep s in w :: ws.

(** [parts.join(sep)]. *)
Fixpoint joinWith (sep : jsstring) (parts : list jsstring) : jsstring :=
  match parts with
  | [] => []
  | [w] => w
  | w :: ws => w ++ sep ++ joinWith sep ws
  end.

(** [s.substring(0, n)]: a negative [n] counts as 0, a large one as the
    length. *)
Definition substring0 (s : jsstring) (n : Z) : jsstring :=
  firstn (Z.to_nat n) s.

(** The class [\s] of regular expressions: WhiteSpace and LineTerminator. *)
Definition isSpace (c : N) : bool :=
  ((9 <=? c) && (c <=? 13) || (c =? 32) || (c =? 160) || (c =? 5760)
   || (8192 <=? c) && (c <=? 8202) || (c =? 8232) || (c =? 8233)
   || (c =? 8239) || (c =? 8287) || (c =? 12288) || (c =? 65279))%N.

(** The class [\d]. *)
Definition isDigit (c : N) : bool := ((48 <=? c) && (c <=? 57))%N.

(** The class [\w] (no [u] or [i] flag): [A-Za-z0-9_]. *)
Definition isWord (c : N) : bool :=
  ((65 <=? c) && (c <=? 90) || (97 <=? c) && (c <=? 122)
   || isDigit c || (c =? 95))%N.

(** [s.toUpperCase()], code unit by code unit.  The letters a-z go to A-Z;
    dotless i (U+0131) and long s (U+017F) are the two other characters
    whose upper case is an ASCII letter.  Every other code unit is kept:
    Unicode maps more letters, but never to an ASCII letter or digit, and
    the script only compares the result with names made of A-Z and 1-9. *)
Definition upperUnit (c : N) : N :=
  (if (97 <=? c) && (c <=? 122) then c - 32
   else if c =? 305 then 73
   else if c =? 383 then 83
   else c)%N.

Definition toUpperCase (s : jsstring) : jsstring := map upperUnit s.

(** Number-to-string conversion of a non-negative integer, as a template
    literal performs it. *)
Definition decimal (n : N) : jsstring :=
  js (NilEmpty.string_of_uint (N.to_uint n)).

Fixpoint dropWhile (p : N -> bool) (s : jsstring) : jsstring :=
  match s with
  | [] => []
  | c :: s' => if p c then dropWhile p s' else s
  end.

Fixpoint takeWhile (p : N -> bool) (s : jsstring) : jsstring :=
  match s with
  | c :: s' => if p c then c :: takeWhile p s' else []
  | [] => []
  end.

Definition dropWhileEnd (p : N -> bool) (s : jsstring) : jsstring :=
  rev (dropWhile p (rev s)).

End JS.

Import JS.
Arguments js s%_string.

(* ------------------------------------------------------------------ *)
(** * Node's [path] module (POSIX flavour) *)
(* ------------------------------------------------------------------ *)

Module Path.

Definition slash : N := 47.
Definition dot : N := 46.

(** [path.isAbsolute(p)]. *)
Definition isAbsolute (p : jsstring) : bool :=
  match p with
  | c :: _ => N.eqb c slash
  | [] => false
  end.

(** The last component of a path: trailing separators are ignored and the
    component starts after the last separator before it. *)
Definition lastComponent (p : jsstring) : jsstring :=
  let trimmed := dropWhileEnd (N.eqb slash) p in
  last (split slash trimmed) [].

(** Splits a component at its last dot: [Some (pre, post)] when the
    component is [pre ++ "." ++ post] and [post] has no dot. *)
Fixpoint splitLastDot (s : jsstring) : option (jsstring * jsstring) :=
  match s with
  | [] => None
  | c :: s' =>
      match splitLastDot s' with
      | Some (pre, post) => Some (c :: pre, post)
      | None => if N.eqb c dot then Some ([], s') else None
      end
  end.

(** [path.extname(p)]: from the last dot of the last component to its end;
    empty when the component has no dot, starts with its only dot, or is
    [".."]. *)
Definition extname (p : jsstring) : jsstring :=
  match splitLastDot (lastComponent p) with
  | None => []
  | Some (pre, post) =>
      if isEmpty pre then []
      else if streq pre [dot] && isEmpty post then []
      else dot :: post
  end.

(** [path.basename(p, suffix)]: the last component, without [suffix] when
    the component ends with it and is not the suffix itself. *)
Definition basename (p suffix : jsstring) : jsstring :=
  let comp := lastComponent p in
  if isEmpty suffix || (length p <? length suffix)%nat then comp
  else if streq suffix p then []
  else if endsWith suffix comp && negb (streq suffix comp)
       then firstn (length comp - length suffix) comp
       else comp.

(** The segments of a path between separators, empty ones dropped. *)
Definition segments (p : jsstring) : list jsstring :=
  filter (fun seg => negb (isEmpty seg)) (split slash p).

(** One step of [normalizeString], on the segments kept so far (the most
    recent first): empty segments and ["."] are dropped, [".."] removes the
    segment before it, and is kept only above the start of a relative
    path. *)
Definition normStep (allowAboveRoot : bool) (kept : list jsstring)
    (seg : jsstring) : list jsstring :=
  if isEmpty seg || streq seg (js ".") then kept
  else if streq seg (js "..") then
    match kept with
    | top :: kept' =>
        if streq top (js "..")
        then (if allowAboveRoot then seg :: kept else kept)
        else kept'
    | [] => if allowAboveRoot then [seg] else []
    end
  else seg :: kept.

Definition normalizeSegments (allowAboveRoot : bool) (p : jsstring)
    : list jsstring :=
  rev (fold_left (normStep allowAboveRoot) (split slash p) []).

Definition normalizeString (allowAboveRoot : bool) (p : jsstring) : jsstring :=
  joinWith [slash] (normalizeSegments allowAboveRoot p).

(** [path.normalize(p)]. *)
Definition normalize (p : jsstring) : jsstring :=
  if isEmpty p then js "."
  else
    let isAbs := isAbsolute p in
    let trailingSeparator := endsWith [slash] p in
    let body := normalizeString (negb isAbs) p in
    if isEmpty body then
      if isAbs then js "/" else if trailingSeparator then js "./" else js "."
    else
      (if isAbs then [slash] else [])
        ++ body ++ (if trailingSeparator then [slash] else []).

(** [path.join(a, b)]: the non-empty arguments, separated by a slash, then
    normalised. *)
Definition join (a b : jsstring) : jsstring :=
  match isEmpty a, isEmpty b with
  | true, true => js "."
  | true, false => normalize b
  | false, true => normalize a
  | false, false => normalize (a ++ [slash] ++ b)
  end.

(** [path.resolve(p)] in the working directory [cwd]. *)
Definition resolve (cwd p : jsstring) : jsstring :=
  let resolvedPath := if isEmpty p then [] else p ++ [slash] in
  let resolvedAbsolute := isAbsolute p in
  let resolvedPath :=
    if resolvedAbsolute || isEmpty cwd then resolvedPath
    else cwd ++ [slash] ++ resolvedPath in
  let resolvedAbsolute := resolvedAbsolute || isAbsolute cwd in
  let body := normalizeString (negb resolvedAbsolute) resolvedPath in
  if resolvedAbsolute then slash :: body
  else if isEmpty body then js "." else body.

(** Drops the segments two paths have in common at their start. *)
Fixpoint stripCommon (a b : list jsstring) : list jsstring * list jsstring :=
  match a, b with
  | x :: a', y :: b' => if streq x y then stripCommon a' b' else (a, b)
  | _, _ => (a, b)
  end.

(** [path.relative(from, to)]: both paths are resolved, then one [".."] per
    segment of [from] below the common directory, then what remains of
    [to]. *)
Definition relative (cwd from to : jsstring) : jsstring :=
  if streq from to then []
  else
    let from := resolve cwd from in
    let to := resolve cwd to in
    if streq from to then []
    else
      let (up, down) := stripCommon (segments from) (segments to) in
      joinWith [slash] (map (fun _ => js "..") up ++ down).

End Path.

(* ------------------------------------------------------------------ *)
(** * Filename sanitisation and derivation *)
(* ------------------------------------------------------------------ *)

Definition MAX_FILENAME_LENGTH : nat := 200.

(** Reserved filenames on Windows. *)
Definition reservedNames : list jsstring :=
  map js ["CON"; "PRN"; "AUX"; "NUL"; "COM1"; "COM2"; "COM3"; "COM4";
          "COM5"; "COM6"; "COM7"; "COM8"; "COM9"; "LPT1"; "LPT2"; "LPT3";
          "LPT4"; "LPT5"; "LPT6"; "LPT7"; "LPT8"; "LPT9"]%string.

(** The class of the first [replace]: the characters < > : / \ | ? * and
    the double quote, and the control characters 0x00 to 0x1f. *)
Definition isInvalidChar (c : N) : bool :=
  ((c =? 60) || (c =? 62) || (c =? 58) || (c =? 34) || (c =? 47)
   || (c =? 92) || (c =? 124) || (c =? 63) || (c =? 42) || (c <=? 31))%N.

Definition underscore : N := 95.

(** The first [replace] of [sanitizeFilename]: every character of that
    class becomes an underscore. *)
Definition replaceInvalid (s : jsstring) : jsstring :=
  map (fun c => if isInvalidChar c then underscore else c) s.

(** The class [[\s.]]. *)
Definition isSpaceOrDot (c : N) : bool := isSpace c || N.eqb c Path.dot.

(** [filename.replace(/^[\s.]+|[\s.]+$/g, '')]: the first alternative
    removes the longest run at the start, the second the longest run that
    reaches the end. *)
Definition trimDotsSpaces (s : jsstring) : jsstring :=
  dropWhileEnd isSpaceOrDot (dropWhile isSpaceOrDot s).

(** [reservedNames.includes(name)]. *)
Definition isReserved (name : jsstring) : bool :=
  existsb (streq name) reservedNames.

(** The stem tested against the reserved names:
    [filename.split('.')[0].toUpperCase()]. *)
Definition stemUpper (filename : jsstring) : jsstring :=
  toUpperCase (fst (splitParts Path.dot filename)).

(** The truncation step of [sanitizeFilename]. *)
Definition limitLength (filename : jsstring) : jsstring :=
  if (MAX_FILENAME_LENGTH <? length filename)%nat then
    let ext := Path.extname filename in
    let nameWithoutExt := Path.basename filename ext in
    substring0 nameWithoutExt
      (Z.of_nat MAX_FILENAME_LENGTH - Z.of_nat (length ext)) ++ ext
  else filename.

Definition sanitizeFilename (filename : jsstring) : jsstring :=
  let filename := replaceInvalid filename in
  let filename := trimDotsSpaces filename in
  let filename :=
    if isReserved (stemUpper filename) then underscore :: filename
    else filename in
  let filename := limitLength filename in
  if isEmpty filename then js "file" else filename.

(** [url.split('/').pop() || 'file']. *)
Definition lastSegmentOrFile (url : jsstring) : jsstring :=
  let seg := last (split Path.slash url) [] in
  if isEmpty seg then js "file" else seg.

Definition getFilenameFromUrl (url : jsstring) : jsstring :=
  let filename := lastSegmentOrFile url in
  let filename :=
    if negb (includes [Path.dot] filename) then filename ++ js ".bin"
    else filename in
  sanitizeFilename filename.

(* ------------------------------------------------------------------ *)
(** * The regular expressions of [extractFileUrls] *)
(* ------------------------------------------------------------------ *)

Module Regex.

(** The constructs the six expressions use: a literal character, and a
    character class under [+] or [*]. *)
Inductive atom :=
| Chr (c : N)
| Plus (cls : N -> bool)
| Star (cls : N -> bool).

Definition pattern := list atom.

Definition lit (s : jsstring) : pattern := map Chr s.

(** An expression with one capture group: what stands before the group,
    the group, and what stands after it. *)
Record regex := { before : pattern; group : pattern; after : pattern }.

(** An expression without a group: the whole match plays its part. *)
Definition bare (p : pattern) : regex :=
  {| before := []; group := p; after := [] |}.

(** Greedy repetition of a class, with backtracking: the longest run is
    tried first, and a shorter one when the continuation [k] fails. *)
Fixpoint many (R : Type) (cls : N -> bool) (s : jsstring)
    (k : jsstring -> jsstring -> option R) : option R :=
  match s with
  | c :: s' =>
      if cls c then
        match many cls s' (fun m rest => k (c :: m) rest) with
        | Some r => Some r
        | None => k [] s
        end
      else k [] s
  | [] => k [] []
  end.

(** Matches [pat] at the start of [s]; the continuation receives the text
    matched and the rest of the input. *)
Fixpoint run (R : Type) (pat : pattern) (s : jsstring)
    (k : jsstring -> jsstring -> option R) : option R :=
  match pat with
  | [] => k [] s
  | Chr c :: pat' =>
      match s with
      | x :: s' =>
          if N.eqb x c then run pat' s' (fun m rest => k (x :: m) rest)
          else None
      | [] => None
      end
  | Plus cls :: pat' =>
      match s with
      | x :: s' =>
          if cls x then
            many cls s' (fun m1 r1 =>
              run pat' r1 (fun m2 r2 => k (x :: m1 ++ m2) r2))
          else None
      | [] => None
      end
  | Star cls :: pat' =>
      many cls s (fun m1 r1 => run pat' r1 (fun m2 r2 => k (m1 ++ m2) r2))
  end.

(** A match of the expression at the start of [s]: the text of the whole
    match and of the group. *)
Definition execAt (re : regex) (s : jsstring) : option (jsstring * jsstring) :=
  run (before re) s (fun m1 r1 =>
    run (group re) r1 (fun m2 r2 =>
      run (after re) r2 (fun m3 _ => Some (m1 ++ m2 ++ m3, m2)))).

(** The matches of a [/g] expression, left to right: the search resumes
    where the previous match ended ([skip] counts the characters of the
    current match still to pass over). *)
Fixpoint scan (re : regex) (s : jsstring) (skip : nat)
    : list (jsstring * jsstring) :=
  match s with
  | [] => []
  | _ :: s' =>
      match skip with
      | S n => scan re s' n
      | O =>
          match execAt re s with
          | Some (whole, cap) =>
              (whole, cap) :: scan re s' (length whole - 1)
          | None => scan re s' 0
          end
      end
  end.

(** [text.match(re) || []]: the whole matches. *)
Definition matchAll (re : regex) (text : jsstring) : list jsstring :=
  map fst (scan re text 0).

(** The values of [m[1]] over the loop [while ((m = re.exec(text)) !== null)]. *)
Definition execAll (re : regex) (text : jsstring) : list jsstring :=
  map snd (scan re text 0).

End Regex.

Import Regex.

Definition notChar (c : N) : N -> bool := fun x => negb (N.eqb x c).

(** The class [[\w\-\.%]]. *)
Definition isNameChar (c : N) : bool :=
  isWord c || N.eqb c 45 || N.eqb c 46 || N.eqb c 37.

Definition assetShape : pattern :=
  lit (js "https://github.com/")
    ++ [Plus (notChar 47); Chr 47; Plus (notChar 47)]
    ++ lit (js "/assets/")
    ++ [Plus isDigit; Chr 47; Plus isNameChar].

Definition attachmentShape : pattern :=
  lit (js "https://github.com/user-attachments/files/")
    ++ [Plus isDigit; Chr 47; Plus isNameChar].

Definition rawShape : pattern :=
  lit (js "https://raw.githubusercontent.com/") ++ [Plus (notChar 41)].

Definition httpsShape : pattern :=
  lit (js "https://") ++ [Plus (notChar 41)].

(** The text of a markdown link up to its URL: an opening bracket, the link
    text, a closing bracket and an opening parenthesis. *)
Definition linkOpen : pattern := [Chr 91; Star (notChar 93); Chr 93; Chr 40].

Definition markdownLink (url : pattern) : regex :=
  {| before := linkOpen; group := url; after := [Chr 41] |}.

Definition assetPattern : regex := bare assetShape.
Definition attachmentPattern : regex := bare attachmentShape.
Definition markdownAssetLinkPattern : regex := markdownLink assetShape.
Definition markdownAttachmentLinkPattern : regex := markdownLink attachmentShape.
Definition markdownRawLinkPattern : regex := markdownLink rawShape.
Definition imgPattern : regex :=
  {| before := Chr 33 :: linkOpen; group := httpsShape; after := [Chr 41] |}.

(** [urlSet.add(url)]: a [Set] keeps insertion order and ignores a value it
    already holds. *)
Definition setAdd (urlSet : list jsstring) (url : jsstring) : list jsstring :=
  if existsb (streq url) urlSet then urlSet else urlSet ++ [url].

Definition addAll (urlSet : list jsstring) (urls : list jsstring)
    : list jsstring :=
  fold_left setAdd urls urlSet.

(** The test the image loop applies to a captured URL. *)
Definition mentionsGithub (url : jsstring) : bool :=
  includes (js "user-images.githubusercontent.com") url
  || includes (js "github.com") url.

Definition extractFileUrls (commentBody : jsstring) : list jsstring :=
  let urlSet := [] in
  let urlSet := addAll urlSet (matchAll assetPattern commentBody) in
  let urlSet := addAll urlSet (matchAll attachmentPattern commentBody) in
  let urlSet := addAll urlSet (execAll markdownAssetLinkPattern commentBody) in
  let urlSet :=
    addAll urlSet (execAll markdownAttachmentLinkPattern commentBody) in
  let urlSet := addAll urlSet (execAll markdownRawLinkPattern commentBody) in
  let urlSet :=
    addAll urlSet (filter mentionsGithub (execAll imgPattern commentBody)) in
  urlSet.

(* ------------------------------------------------------------------ *)
(** * The platform: URL parsing, network, clock, environment *)
(* ------------------------------------------------------------------ *)

(** GitHub's per-file limit for issue attachments. *)
Definition MAX_FILE_SIZE : N := 25 * 1024 * 1024.

(** A [Buffer] or [ArrayBuffer]: its bytes. *)
Definition buffer := list Byte.byte.

Definition byteLength (b : buffer) : N := N.of_nat (length b).

(** What [fetch] resolves to: the status, the [content-length] header when
    the response has one, and the body, [None] when reading it fails. *)
Record response := {
  status : N;
  contentLength : option jsstring;
  body : option buffer
}.

(** [response.ok]: the status is in the range 200-299. *)
Definition ok (r : response) : bool :=
  ((200 <=? status r) && (status r <=? 299))%N.

(** A call of [fetch] either rejects or resolves to a response. *)
Inductive fetchResult :=
| FetchRejected
| FetchResolved (r : response).

(** What the script takes from its host: [new URL(s).hostname] ([None] when
    the constructor throws), the network behind [fetch], the working
    directory and the clock. *)
Record platform := {
  URL_hostname : jsstring -> option jsstring;
  network : jsstring -> jsstring -> fetchResult;
  cwd : jsstring;
  now : jsstring
}.

(** [process.env]: a variable is [None] when it is not set. *)
Record environment := {
  GITHUB_TOKEN : option jsstring;
  ISSUE_NUMBER : option jsstring;
  COMMENT_BODY : option jsstring;
  COMMENT_ID : option jsstring;
  GITHUB_REPOSITORY : option jsstring;
  GITHUB_OUTPUT : option jsstring
}.

(** [!v] for a variable of the environment: unset or empty. *)
Definition truthy (v : option jsstring) : option jsstring :=
  match v with
  | Some s => if isEmpty s then None else Some s
  | None => None
  end.

Record FileMetadata := {
  issue_number : jsstring;
  comment_id : jsstring;
  files : list jsstring;
  timestamp : jsstring
}.

(** What [writeFile] is given: downloaded bytes, or the metadata record,
    of which the script writes the JSON text. *)
Inductive content :=
| Bytes (b : buffer)
| Json (m : FileMetadata).

(** What is thrown: a failed request, a status that is not a success, a
    failed read of the body, the missing GITHUB_OUTPUT.  [LoopBudget]
    belongs to the model alone: the loop of [ensureUniqueFilename] has used
    all the tests it is given (it never does, see
    [ensureUniquePath_total]). *)
Inductive error :=
| FetchError
| HttpError (status : N)
| BodyError
| OutputNotSet
| LoopBudget.

(** The lines the script prints. *)
Inductive message :=
| MsgMissingEnvironment
| MsgInvalidIssueNumber (issueNumber : jsstring)
| MsgPathTraversal
| MsgNoUrls
| MsgFound (count : nat)
| MsgProcessing (url : jsstring)
| MsgSaved (filePath : jsstring)
| MsgProcessed (count : nat)
| MsgNoneDownloaded
| MsgUntrustedDomain (url : jsstring)
| MsgFileTooLarge (size : Z)
| MsgDownloadedTooLarge (size : N)
| MsgDownloadError (url : jsstring) (e : error)
| MsgFatal (e : error).

(** What a run does to the outside, in order. *)
Inductive event :=
| ConsoleLog (m : message)
| ConsoleError (m : message)
| Fetch (url token : jsstring)
| ReadBody (url : jsstring)
| Mkdir (dir : jsstring)
| WriteFile (filePath : jsstring) (c : content)
| AppendFile (filePath : jsstring) (data : jsstring)
| ProcessExit (code : N).

(** The paths that exist on disk, and the events so far. *)
Record world := {
  existing : list jsstring;
  trace : list event
}.

(** [existsSync(p)]. *)
Definition existsSync (fs : list jsstring) (p : jsstring) : bool :=
  existsb (streq p) fs.

(* ------------------------------------------------------------------ *)
(** * Computations: state, exceptions and [process.exit] *)
(* ------------------------------------------------------------------ *)

Inductive outcome (A : Type) :=
| Returned (a : A)
| Thrown (e : error)
| Exited (code : N).

Arguments Returned {A} a.
Arguments Thrown {A} e.
Arguments Exited {A} code.

Definition M (A : Type) := world -> outcome A * world.

Definition ret (A : Type) (a : A) : M A := fun w => (Returned a, w).

Definition bind (A B : Type) (m : M A) (k : A -> M B) : M B :=
  fun w =>
    match m w with
    | (Returned a, w') => k a w'
    | (Thrown e, w') => (Thrown e, w')
    | (Exited c, w') => (Exited c, w')
    end.

Notation "x <- m ;; k" := (bind m (fun x => k))
  (at level 61, m at next level, right associativity).
Notation "m ;; k" := (bind m (fun _ => k))
  (at level 61, right associativity).

Definition throw (A : Type) (e : error) : M A := fun w => (Thrown e, w).

Arguments throw {A} e.

(** [try { m } catch (error) { handler }]; [process.exit] is not caught. *)
Definition tryCatch (A : Type) (m : M A) (handler : error -> M A) : M A :=
  fun w =>
    match m w with
    | (Thrown e, w') => handler e w'
    | r => r
    end.

Definition emit (e : event) : M unit :=
  fun w => (Returned tt, {| existing := existing w; trace := trace w ++ [e] |}).

Definition create (p : jsstring) : M unit :=
  fun w =>
    (Returned tt,
     {| existing := if existsSync (existing w) p then existing w
                    else existing w ++ [p];
        trace := trace w |}).

Definition console_log (m : message) : M unit := emit (ConsoleLog m).
Definition console_error (m : message) : M unit := emit (ConsoleError m).

(** [process.exit(code)]: the process ends here. *)
Definition process_exit (A : Type) (code : N) : M A :=
  fun w =>
    (Exited code,
     {| existing := existing w; trace := trace w ++ [ProcessExit code] |}).

Arguments process_exit {A} code.

(** The calls of the file system are taken to succeed.

    [fs.mkdir(dir, { recursive: true })]. *)
Definition fs_mkdir (dir : jsstring) : M unit :=
  emit (Mkdir dir) ;; create dir.

(** [fs.writeFile(p, c)]. *)
Definition fs_writeFile (p : jsstring) (c : content) : M unit :=
  emit (WriteFile p c) ;; create p.

(** [fs.appendFile(p, data)]. *)
Definition fs_appendFile (p : jsstring) (data : jsstring) : M unit :=
  emit (AppendFile p data) ;; create p.

Section Script.

Variable host : platform.
Variable env : environment.

(* ------------------------------------------------------------------ *)
(** * Domain validation and download *)
(* ------------------------------------------------------------------ *)

(** Only allow downloading from official GitHub domains: github.com and
    any subdomain of githubusercontent.com. *)
Definition isAllowedGithubDomain (urlString : jsstring) : bool :=
  match URL_hostname host urlString with
  | Some hostname =>
      streq hostname (js "github.com")
      || streq hostname (js "githubusercontent.com")
      || endsWith (js ".githubusercontent.com") hostname
  | None => false
  end.

Definition digitsValue (ds : jsstring) : Z :=
  fold_left (fun acc c => 10 * acc + (Z.of_N c - 48))%Z ds 0%Z.

(** [parseInt(s, 10)]: leading white space, a sign, then the longest run of
    digits; [None] stands for NaN. *)
Definition parseInt (s : jsstring) : option Z :=
  let s := dropWhile isSpace s in
  let (negative, s) :=
    match s with
    | c :: s' =>
        if N.eqb c 45 then (true, s')
        else if N.eqb c 43 then (false, s') else (false, s)
    | [] => (false, s)
    end in
  let ds := takeWhile isDigit s in
  if isEmpty ds then None
  else Some (if negative then - digitsValue ds else digitsValue ds)%Z.

(** The size the [content-length] header declares, when the header is
    present and not empty; a comparison with NaN is false. *)
Definition declaredTooLarge (r : response) : option Z :=
  match truthy (contentLength r) with
  | Some cl =>
      match parseInt cl with
      | Some size => if (Z.of_N MAX_FILE_SIZE <? size)%Z then Some size else None
      | None => None
      end
  | None => None
  end.

(** [await fetch(url, ...)]. *)
Definition do_fetch (url token : jsstring) : M response :=
  emit (Fetch url token) ;;
  match network host url token with
  | FetchResolved r => ret r
  | FetchRejected => throw FetchError
  end.

(** [await response.arrayBuffer()]. *)
Definition arrayBuffer (url : jsstring) (r : response) : M buffer :=
  emit (ReadBody url) ;;
  match body r with
  | Some b => ret b
  | None => throw BodyError
  end.

Definition downloadFile (url token : jsstring) : M (option buffer) :=
  if negb (isAllowedGithubDomain url) then
    console_error (MsgUntrustedDomain url) ;;
    ret None
  else
    tryCatch
      (response <- do_fetch url token ;;
       if negb (ok response) then throw (HttpError (status response))
       else
         match declaredTooLarge response with
         | Some size =>
             console_error (MsgFileTooLarge size) ;;
             ret None
         | None =>
             buf <- arrayBuffer url response ;;
             if (MAX_FILE_SIZE <? byteLength buf)%N then
               console_error (MsgDownloadedTooLarge (byteLength buf)) ;;
               ret None
             else ret (Some buf)
         end)
      (fun e =>
         console_error (MsgDownloadError url e) ;;
         ret None).

(* ------------------------------------------------------------------ *)
(** * Unique paths *)
(* ------------------------------------------------------------------ *)

(** The filename tried after [counter - 1] collisions. *)
Definition numbered (filename : jsstring) (counter : N) : jsstring :=
  let ext := Path.extname filename in
  let nameWithoutExt := Path.basename filename ext in
  nameWithoutExt ++ [underscore] ++ decimal counter ++ ext.

(** The loop of [ensureUniqueFilename], for at most [fuel] tests of
    [existsSync]. *)
Fixpoint ensureUniqueLoop (fuel : nat) (fs : list jsstring)
    (dir filename filePath : jsstring) (counter : N) : option jsstring :=
  match fuel with
  | O => None
  | S fuel' =>
      if existsSync fs filePath then
        ensureUniqueLoop fuel' fs dir filename
          (Path.join dir (numbered filename counter)) (counter + 1)
      else Some filePath
  end.

(** One test more than there are paths on disk. *)
Definition ensureUniquePath (fs : list jsstring) (dir filename : jsstring)
    : option jsstring :=
  ensureUniqueLoop (S (length fs)) fs dir filename (Path.join dir filename) 1.

Definition ensureUniqueFilename (dir filename : jsstring) : M jsstring :=
  fun w =>
    match ensureUniquePath (existing w) dir filename with
    | Some filePath => (Returned filePath, w)
    | None => (Thrown LoopBudget, w)
    end.

(* ------------------------------------------------------------------ *)
(** * Outputs and [main] *)
(* ------------------------------------------------------------------ *)

Definition newline : N := 10.

Definition setOutput (name value : jsstring) : M unit :=
  match truthy (GITHUB_OUTPUT env) with
  | None => throw OutputNotSet
  | Some outputPath =>
      fs_appendFile outputPath (name ++ js "=" ++ value ++ [newline])
  end.

(** [/^\d+$/.test(s)]. *)
Definition allDigits (s : jsstring) : bool :=
  negb (isEmpty s) && forallb isDigit s.

(** The body of the loop over [fileUrls]; [downloadedFiles] collects the
    paths written. *)
Fixpoint processUrls (targetDir token : jsstring) (fileUrls : list jsstring)
    (downloadedFiles : list jsstring) : M (list jsstring) :=
  match fileUrls with
  | [] => ret downloadedFiles
  | url :: rest =>
      console_log (MsgProcessing url) ;;
      downloaded <- downloadFile url token ;;
      match downloaded with
      | None => processUrls targetDir token rest downloadedFiles
      | Some fileContent =>
          let filename := getFilenameFromUrl url in
          filePath <- ensureUniqueFilename targetDir filename ;;
          fs_writeFile filePath (Bytes fileContent) ;;
          console_log (MsgSaved filePath) ;;
          processUrls targetDir token rest (downloadedFiles ++ [filePath])
      end
  end.

(** The text of the [file_list] output. *)
Definition fileList (downloadedFiles : list jsstring) : jsstring :=
  joinWith [newline]
    (map (fun f => js "- `" ++ f ++ js "`") downloadedFiles).

(** [main] from the creation of the target directory on. *)
Definition ingest (token issueNumber commentId commentBody targetDir : jsstring)
    : M unit :=
  fs_mkdir targetDir ;;
  let fileUrls := extractFileUrls commentBody in
  if (length fileUrls =? 0)%nat then
    console_log MsgNoUrls ;;
    setOutput (js "files_processed") (js "false")
  else
    console_log (MsgFound (length fileUrls)) ;;
    downloadedFiles <- processUrls targetDir token fileUrls [] ;;
    if (0 <? length downloadedFiles)%nat then
      setOutput (js "files_processed") (js "true") ;;
      setOutput (js "file_list") (fileList downloadedFiles) ;;
      let metadata :=
        {| issue_number := issueNumber;
           comment_id := commentId;
           files := downloadedFiles;
           timestamp := now host |} in
      let metadataPath := Path.join targetDir (js "metadata.json") in
      fs_writeFile metadataPath (Json metadata) ;;
      console_log (MsgProcessed (length downloadedFiles))
    else
      setOutput (js "files_processed") (js "false") ;;
      console_log MsgNoneDownloaded.

(** The test of the path traversal guard. *)
Definition traversalDetected (baseDir targetDir : jsstring) : bool :=
  let resolvedTargetDir := Path.resolve (cwd host) targetDir in
  let relative := Path.relative (cwd host) baseDir resolvedTargetDir in
  startsWith (js "..") relative || Path.isAbsolute relative.

(** [main] from the path traversal guard on. *)
Definition guarded (token issueNumber commentId commentBody : jsstring)
    (baseDir targetDir : jsstring) : M unit :=
  (if traversalDetected baseDir targetDir then
     console_error MsgPathTraversal ;;
     process_exit 1
   else ret tt) ;;
  ingest token issueNumber commentId commentBody targetDir.

(** [main]: the inputs, the check of the issue number, the target
    directory, then [guarded].  Creating the Octokit client and splitting
    the repository name have no effect the script uses; a missing token,
    issue number, comment identifier or repository ends the run. *)
Definition main : M unit :=
  let commentBody :=
    match truthy (COMMENT_BODY env) with Some s => s | None => [] end in
  match truthy (GITHUB_TOKEN env), truthy (ISSUE_NUMBER env),
        truthy (COMMENT_ID env), truthy (GITHUB_REPOSITORY env) with
  | Some token, Some issueNumber, Some commentId, Some repository =>
      (if negb (allDigits issueNumber) then
         console_error (MsgInvalidIssueNumber issueNumber) ;;
         process_exit 1
       else ret tt) ;;
      let baseDir := Path.resolve (cwd host) (js "uploaded_files") in
      let targetDir := Path.join baseDir (js "issue_" ++ issueNumber) in
      guarded token issueNumber commentId commentBody baseDir targetDir
  | _, _, _, _ =>
      console_error MsgMissingEnvironment ;;
      process_exit 1
  end.

(** [main().catch(error => { console.error(...); process.exit(1); })]. *)
Definition script : M unit :=
  tryCatch main
    (fun e => console_error (MsgFatal e) ;; process_exit 1).

End Script.

(** The exit code of the process after [script]: 0 when it returns; an
    exception does not leave [script], whose handler exits. *)
Definition exitCode (r : outcome unit) : N :=
  match r with
  | Returned _ => 0
  | Exited code => code
  | Thrown _ => 1
  end.

(** A run from an empty log, with [fs] the paths on disk beforehand. *)
Definition run_script (host : platform) (env : environment)
    (fs : list jsstring) : outcome unit * world :=
  script host env {| existing := fs; trace := [] |}.

(* ------------------------------------------------------------------ *)
(** * A sample host *)
(* ------------------------------------------------------------------ *)

Module Sample.

(** Reads the host of a URL written [https://host/...]; any other text
    does not parse. *)
Definition hostname (s : jsstring) : option jsstring :=
  if startsWith (js "https://") s then
    let h := takeWhile (fun c => negb (N.eqb c 47)) (skipn 8 s) in
    if isEmpty h then None else Some h
  else None.

Definition png : buffer := [Byte.x89; Byte.x50; Byte.x4e; Byte.x47].

(** A network that serves four bytes for every URL ending in [.png],
    answers 404 for URLs ending in [.zip] and is unreachable otherwise. *)
Definition serve (url token : jsstring) : fetchResult :=
  if endsWith (js ".png") url then
    FetchResolved {| status := 200; contentLength := Some (js "4");
                     body := Some png |}
  else if endsWith (js ".zip") url then
    FetchResolved {| status := 404; contentLength := None; body := Some [] |}
  else FetchRejected.

Definition host : platform :=
  {| URL_hostname := hostname;
     network := serve;
     cwd := js "/home/runner/work/sandbox";
     now := js "2024-01-01T00:00:00.000Z" |}.

Definition env (commentBody : jsstring) (output : option jsstring)
    : environment :=
  {| GITHUB_TOKEN := Some (js "t0ken");
     ISSUE_NUMBER := Some (js "42");
     COMMENT_BODY := Some commentBody;
     COMMENT_ID := Some (js "1001");
     GITHUB_REPOSITORY := Some (js "codenote-net/sandbox");
     GITHUB_OUTPUT := output |}.

Definition imageComment : jsstring :=
  js "see ![img](https://user-images.githubusercontent.com/1/2/3/abc.png)".

End Sample.

(* ------------------------------------------------------------------ *)
(** * Declarative readings used in the statements *)
(* ------------------------------------------------------------------ *)

(** The language of a pattern: the texts it can match. *)
Inductive Matches : pattern -> jsstring -> Prop :=
| Matches_nil : Matches [] []
| Matches_chr c pat w :
    Matches pat w -> Matches (Chr c :: pat) (c :: w)
| Matches_plus cls pat x m w :
    cls x = true -> Forall (fun c => cls c = true) m -> Matches pat w ->
    Matches (Plus cls :: pat) (x :: m ++ w)
| Matches_star cls pat m w :
    Forall (fun c => cls c = true) m -> Matches pat w ->
    Matches (Star cls :: pat) (m ++ w).

(** [w] occurs in [text]. *)
Definition occursIn (w text : jsstring) : Prop :=
  exists a b, text = a ++ w ++ b.

(** What a match of an expression consists of. *)
Definition matchOf (re : regex) (whole cap : jsstring) : Prop :=
  exists m1 m3,
    whole = m1 ++ cap ++ m3 /\ Matches (before re) m1
    /\ Matches (group re) cap /\ Matches (after re) m3.

(** A host the validator trusts: the primary host, or the content host or
    one of its subdomains. *)
Definition trustedHost (h : jsstring) : Prop :=
  h = js "github.com" \/ h = js "githubusercontent.com"
  \/ exists sub, h = sub ++ js ".githubusercontent.com".

(** A URL the image loop keeps: [https://] followed by anything up to a
    closing parenthesis, with one of the two host names somewhere in it. *)
Definition imageUrl (u : jsstring) : Prop :=
  Matches httpsShape u /\ mentionsGithub u = true.

(** The URLs [extractFileUrls] can return. *)
Definition recognizedUrl (u : jsstring) : Prop :=
  Matches assetShape u \/ Matches attachmentShape u
  \/ Matches rawShape u \/ imageUrl u.

(** The shapes [extractFileUrls] looks for in a text: a bare asset or
    attachment URL, a markdown link to a raw-content URL, a markdown image
    of a URL the image loop keeps. *)
Definition recognizedShape (w : jsstring) : Prop :=
  Matches assetShape w \/ Matches attachmentShape w
  \/ (exists m u, w = m ++ u ++ js ")"
                  /\ Matches linkOpen m /\ Matches rawShape u)
  \/ (exists m u, w = 33%N :: m ++ u ++ js ")"
                  /\ Matches linkOpen m /\ imageUrl u).

(** The [i]-th path the loop of [ensureUniqueFilename] tests, from [filePath] and [counter] on. *)
Definition candidate (dir filename filePath : jsstring) (counter : N)
    (i : nat) : jsstring :=
  match i with
  | O => filePath
  | S j => Path.join dir (numbered filename (counter + N.of_nat j))
  end.

(** The paths of the downloaded files a trace writes, in order. *)
Fixpoint writtenFiles (t : list event) : list jsstring :=
  match t with
  | [] => []
  | WriteFile p (Bytes _) :: t' => p :: writtenFiles t'
  | _ :: t' => writtenFiles t'
  end.

(** The metadata records a trace writes, with their paths. *)
Fixpoint manifests (t : list event) : list (jsstring * FileMetadata) :=
  match t with
  | [] => []
  | WriteFile p (Json m) :: t' => (p, m) :: manifests t'
  | _ :: t' => manifests t'
  end.

(** The events of the loop over the URLs: messages, requests, and writes of
    downloaded bytes to a path [ensureUniqueFilename] returned for the
    filename of a URL. *)
Definition loopEvent (targetDir : jsstring) (e : event) : Prop :=
  match e with
  | ConsoleLog _ | ConsoleError _ | Fetch _ _ | ReadBody _ => True
  | WriteFile p (Bytes _) =>
      exists url fs,
        ensureUniquePath fs targetDir (getFilenameFromUrl url) = Some p
  | _ => False
  end.

(** The events of a run from the creation of the target directory on: the
    events of the loop, the creation of the directory, the outputs, and the
    metadata file. *)
Definition ingestEvent (targetDir : jsstring) (e : event) : Prop :=
  loopEvent targetDir e
  \/ e = Mkdir targetDir
  \/ (exists p data, e = AppendFile p data)
  \/ (exists m, e = WriteFile (Path.join targetDir (js "metadata.json"))
                      (Json m)).

(** The base directory and the target directory of a run. *)
Definition baseDirOf (host : platform) : jsstring :=
  Path.resolve (cwd host) (js "uploaded_files").

Definition targetDirOf (host : platform) (issueNumber : jsstring) : jsstring :=
  Path.join (baseDirOf host) (js "issue_" ++ issueNumber).

(** The events of a whole run: error messages, the exit with code 1, and,
    once the issue number has passed the check, the events of
    [ingest]. *)
Definition scriptEvent (host : platform) (env : environment) (e : event)
    : Prop :=
  (exists m, e = ConsoleError m)
  \/ e = ProcessExit 1
  \/ (exists issueNumber,
        truthy (ISSUE_NUMBER env) = Some issueNumber
        /\ allDigits issueNumber = true
        /\ ingestEvent (targetDirOf host issueNumber) e).

(** [seg] is the last path segment of [url]: what follows its last slash,
    or all of it when it has none. *)
Definition lastSegmentOf (url seg : jsstring) : Prop :=
  ~ In Path.slash seg /\
  (url = seg \/ exists pre, url = pre ++ [Path.slash] ++ seg).

(** The Filename Deriver as the specification words it: the final path
    segment after the last slash, with [.bin] appended when it contains no
    dot, then sanitized. *)
Definition specFilenameFromUrl (url : jsstring) : jsstring :=
  let segment := last (split Path.slash url) [] in
  sanitizeFilename
    (if includes [Path.dot] segment then segment else segment ++ js ".bin").

(** The directory of the examples. *)
Definition issue42 : jsstring :=
  js "/home/runner/work/sandbox/uploaded_files/issue_42".

(** The runs of [downloadFile]: what it returns and the events it adds. *)
Inductive Download (host : platform) (url token : jsstring)
    : option buffer -> list event -> Prop :=
| Download_refused :
    isAllowedGithubDomain host url = false ->
    Download host url token None [ConsoleError (MsgUntrustedDomain url)]
| Download_rejected :
    isAllowedGithubDomain host url = true ->
    network host url token = FetchRejected ->
    Download host url token None
      [Fetch url token; ConsoleError (MsgDownloadError url FetchError)]
| Download_status resp :
    isAllowedGithubDomain host url = true ->
    network host url token = FetchResolved resp ->
    ok resp = false ->
    Download host url token None
      [Fetch url token;
       ConsoleError (MsgDownloadError url (HttpError (status resp)))]
| Download_declared resp size :
    isAllowedGithubDomain host url = true ->
    network host url token = FetchResolved resp ->
    ok resp = true ->
    declaredTooLarge resp = Some size ->
    Download host url token None
      [Fetch url token; ConsoleError (MsgFileTooLarge size)]
| Download_unreadable resp :
    isAllowedGithubDomain host url = true ->
    network host url token = FetchResolved resp ->
    ok resp = true ->
    declaredTooLarge resp = None ->
    body resp = None ->
    Download host url token None
      [Fetch url token; ReadBody url;
       ConsoleError (MsgDownloadError url BodyError)]
| Download_oversize resp buf :
    isAllowedGithubDomain host url = true ->
    network host url token = FetchResolved resp ->
    ok resp = true ->
    declaredTooLarge resp = None ->
    body resp = Some buf ->
    (MAX_FILE_SIZE < byteLength buf)%N ->
    Download host url token None
      [Fetch url token; ReadBody url;
       ConsoleError (MsgDownloadedTooLarge (byteLength buf))]
| Download_complete resp buf :
    isAllowedGithubDomain host url = true ->
    network host url token = FetchResolved resp ->
    ok resp = true ->
    declaredTooLarge resp = None ->
    body resp = Some buf ->
    (byteLength buf <= MAX_FILE_SIZE)%N ->
    Download host url token (Some buf) [Fetch url token; ReadBody url].

(** The world after some more events. *)
Definition after_events (w : world) (evs : list event) : world :=
  {| existing := existing w; trace := trace w ++ evs |}.

(** A name that can stand as one segment of a path: not empty, without a
    separator, and neither ["."] nor [".."]. *)
Definition cleanName (n : jsstring) : Prop :=
  n <> [] /\ ~ In Path.slash n /\ n <> js "." /\ n <> js "..".

(** An absolute path in normal form, with its segments. *)
Definition absolutePath (p : jsstring) (segs : list jsstring) : Prop :=
  p = Path.slash :: joinWith [Path.slash] segs /\ Forall cleanName segs.

(** The segments of a directory in normal form, and the slash an absolute
    one starts with. *)
Definition dirSegments (dir : jsstring) : list jsstring :=
  Path.normalizeSegments (negb (Path.isAbsolute dir)) dir.

Definition rootOf (dir : jsstring) : jsstring :=
  if Path.isAbsolute dir then [Path.slash] else [].

(** [p] is the path of an entry of the directory [dir]: the segments of
    the directory, then one clean name. *)
Definition entryOf (dir p : jsstring) : Prop :=
  exists n, cleanName n /\
    p = rootOf dir ++ joinWith [Path.slash] (dirSegments dir ++ [n]).

(** [p] names an entry directly inside the directory [dir]. *)
Definition childOf (dir p : jsstring) : Prop :=
  exists n, cleanName n /\ p = dir ++ [Path.slash] ++ n.

(** [p] lies strictly inside [base]: one or more clean segments below it. *)
Definition strictlyInside (base p : jsstring) : Prop :=
  exists segs, segs <> [] /\ Forall cleanName segs /\
    p = base ++ [Path.slash] ++ joinWith [Path.slash] segs.

(** The resolved [target] is [base] or lies below it: its segments start
    with the segments of the resolved [base]. *)
Definition within (cwd base target : jsstring) : Prop :=
  exists rest,
    Path.segments (Path.resolve cwd target)
    = Path.segments (Path.resolve cwd base) ++ rest.

(** The comment a run reads: [process.env.COMMENT_BODY || '']. *)
Definition commentBodyOf (env : environment) : jsstring :=
  match truthy (COMMENT_BODY env) with Some s => s | None => [] end.

(** The events outside the loop: no request, no read of a body, no write of
    downloaded bytes. *)
Definition quiet (e : event) : Prop :=
  match e with
  | Fetch _ _ | ReadBody _ | WriteFile _ (Bytes _) => False
  | _ => True
  end.

(** The events of the loop over [urls] with the credential [token]: every
    request goes to one of the URLs, which the validator accepts, and
    carries the token; every write of bytes stores the whole body of a
    successful response to such a request, within the size limit. *)
Definition requestEvent (host : platform) (token : jsstring)
    (urls : list jsstring) (e : event) : Prop :=
  match e with
  | Fetch u t =>
      t = token /\ In u urls /\ isAllowedGithubDomain host u = true
  | WriteFile p (Bytes b) =>
      (byteLength b <= MAX_FILE_SIZE)%N /\
      exists u resp,
        In u urls /\ isAllowedGithubDomain host u = true
        /\ network host u token = FetchResolved resp
        /\ ok resp = true /\ body resp = Some b
  | _ => True
  end.

(** The line [setOutput] appends for the [files_processed] flag. *)
Definition flagLine (downloadedFiles : list jsstring) : jsstring :=
  js "files_processed="
    ++ (if (0 <? length downloadedFiles)%nat then js "true" else js "false")
    ++ [newline].

(* ------------------------------------------------------------------ *)
(** * The scheduling script: triggers on business days *)
(* ------------------------------------------------------------------ *)

Module Schedule.

Local Open Scope Z_scope.

(** A [Date]: the calendar day (the month counts from 0), the time of day,
    and what remains of it, seconds and milliseconds. *)
Record Date := {
  fullYear : Z;
  month : Z;
  date : Z;
  hours : Z;
  minutes : Z;
  rest : Z
}.

(** [new Date(year, month, day)]: midnight of that day, for a month and a
    day within range; a year from 0 to 99 stands for 1900 to 1999. *)
Definition newDate (y m d : Z) : Date :=
  {| fullYear := if (0 <=? y) && (y <=? 99) then 1900 + y else y;
     month := m; date := d;
     hours := 0; minutes := 0; rest := 0 |}.

(** [d.setHours(h)] and [d.setMinutes(m)], for a value within the range
    of the field. *)
Definition setHours (d : Date) (h : Z) : Date :=
  {| fullYear := fullYear d; month := month d; date := date d;
     hours := h; minutes := minutes d; rest := rest d |}.

Definition setMinutes (d : Date) (m : Z) : Date :=
  {| fullYear := fullYear d; month := month d; date := date d;
     hours := hours d; minutes := m; rest := rest d |}.

(** The days from 1 January 1970 to the day [d] of month [m] (from 1) of
    year [y], in the Gregorian calendar. *)
Definition daysFromCivil (y m d : Z) : Z :=
  let y' := if m <=? 2 then y - 1 else y in
  let era := y' / 400 in
  let yoe := y' - era * 400 in
  let mp := (m + 9) mod 12 in
  let doy := (153 * mp + 2) / 5 + d - 1 in
  let doe := yoe * 365 + yoe / 4 - yoe / 100 + doy in
  era * 146097 + doe - 719468.

(** [d.getDay()]: 0 for Sunday to 6 for Saturday, for a day within its
    month; 1 January 1970 was a Thursday. *)
Definition getDay (d : Date) : Z :=
  (daysFromCivil (fullYear d) (month d + 1) (date d) + 4) mod 7.

(** A project trigger: its identity, the function it calls and when. *)
Record trigger := {
  uid : nat;
  handler : jsstring;
  at_ : Date
}.

(** A request sent with [UrlFetchApp.fetch]: a POST of the JSON object
    with the one field [text]. *)
Record post := {
  post_url : jsstring;
  post_text : jsstring
}.

(** What the script takes from its host: the clock, read by each
    [new Date()], the number of events of the holiday calendar on a day,
    and the script property SLACK_URL. *)
Record services := {
  clock : nat -> Date;
  holidayEvents : Z -> Z -> Z -> nat;
  SLACK_URL : jsstring
}.

(** The state of a project: how often the clock was read, its triggers,
    the identity of the next trigger, the requests sent. *)
Record project := {
  reads : nat;
  triggers : list trigger;
  nextUid : nat;
  posts : list post
}.

Definition TARGET_DATES : list Z := [10; 15]%Z.
Definition TARGET_NUMBER_OF_BUSINESS_DAYS : list Z := [6; 8]%Z.
Definition TARGET_HOURS : Z := 9.
Definition TARGET_MINUTES : Z := 0.

(** [list.includes(x)] on numbers. *)
Definition includesZ (l : list Z) (x : Z) : bool := existsb (Z.eqb x) l.

(** The name of the handler, [myFunction]. *)
Definition myFunctionName : jsstring := js "myFunction".

(** The greeting [myFunction] posts, in code units. *)
Definition greeting : jsstring :=
  [12458; 12495; 12520; 12454; 12468; 12470; 12452; 12510; 12473; 65281]%N.

Section Script.

Variable host : services.

(** Saturdays, Sundays and the days with an event in the holiday calendar
    are no business days. *)
Definition isBusinessDay (d : Date) : bool :=
  if (getDay d =? 0)%Z || (getDay d =? 6)%Z then false
  else if (0 <? holidayEvents host (fullYear d) (month d) (date d))%nat
       then false
       else true.

(** The loop of [numberOfBusinessDay]: [steps] days from day [i] of the
    month of [now]. *)
Fixpoint countFrom (now : Date) (i : Z) (steps : nat) (num : Z) : Z :=
  match steps with
  | O => num
  | S k =>
      let countDayOfMonth := newDate (fullYear now) (month now) i in
      countFrom now (i + 1) k
        (if isBusinessDay countDayOfMonth then num + 1 else num)
  end.

(** [numberOfBusinessDay] once the clock has been read. *)
Definition numberOfBusinessDayAt (now : Date) : Z :=
  if negb (isBusinessDay now) then 0
  else countFrom now 1 (Z.to_nat (date now)) 0.

(** [new Date()]: reads the clock. *)
Definition readClock (s : project) : Date * project :=
  (clock host (reads s),
   {| reads := S (reads s); triggers := triggers s;
      nextUid := nextUid s; posts := posts s |}).

(** The argument the caller passes is not used: the function reads the
    clock itself. *)
Definition numberOfBusinessDay (s : project) : Z * project :=
  let (now, s) := readClock s in
  (numberOfBusinessDayAt now, s).

Definition canSetTrigger (s : project) : bool * project :=
  let (today, s) := readClock s in
  let todayDate := date today in
  if includesZ TARGET_DATES todayDate then (true, s)
  else
    let (todayNumberOfBusinessDay, s) := numberOfBusinessDay s in
    if includesZ TARGET_NUMBER_OF_BUSINESS_DAYS todayNumberOfBusinessDay
    then (true, s)
    else (false, s).

(** [ScriptApp.newTrigger(name).timeBased().at(when).create()]. *)
Definition createTrigger (name : jsstring) (when : Date) (s : project)
    : project :=
  {| reads := reads s;
     triggers := triggers s
                   ++ [{| uid := nextUid s; handler := name; at_ := when |}];
     nextUid := S (nextUid s);
     posts := posts s |}.

(** [ScriptApp.deleteTrigger(t)]: the project loses that trigger. *)
Definition deleteTrigger (t : trigger) (s : project) : project :=
  {| reads := reads s;
     triggers := filter (fun t' => negb (Nat.eqb (uid t') (uid t)))
                   (triggers s);
     nextUid := nextUid s;
     posts := posts s |}.

Definition setTrigger (s : project) : project :=
  let (can, s) := canSetTrigger s in
  if can then
    let (d, s) := readClock s in
    let d := setHours d TARGET_HOURS in
    let d := setMinutes d TARGET_MINUTES in
    createTrigger myFunctionName d s
  else s.

(** The loop of [delTrigger] over the triggers read at its start. *)
Fixpoint deleteHandlers (snapshot : list trigger) (s : project) : project :=
  match snapshot with
  | [] => s
  | t :: more =>
      if streq (handler t) myFunctionName
      then deleteHandlers more (deleteTrigger t s)
      else deleteHandlers more s
  end.

Definition delTrigger (s : project) : project :=
  deleteHandlers (triggers s) s.

(** The request is taken to succeed. *)
Definition postSlackMessage (text : jsstring) (s : project) : project :=
  {| reads := reads s; triggers := triggers s; nextUid := nextUid s;
     posts := posts s ++ [{| post_url := SLACK_URL host;
                             post_text := text |}] |}.

Definition myFunction (s : project) : project :=
  postSlackMessage greeting (delTrigger s).

End Script.

(** The triggers of a project have distinct identities, all below the
    next one. *)
Definition wellFormed (s : project) : Prop :=
  NoDup (map uid (triggers s))
  /\ Forall (fun t => (uid t < nextUid s)%nat) (triggers s).

(** The triggers that call [myFunction], and the others. *)
Definition callsMyFunction (t : trigger) : bool :=
  streq (handler t) myFunctionName.

(** The days of the week from Monday to Friday. *)
Definition weekdayNumber (w : Z) : bool := negb ((w =? 0) || (w =? 6))%Z.

(** The days of the month up to [now], and how many of them are business
    days for the host. *)
Definition daysUpTo (now : Date) : list Date :=
  map (fun k => newDate (fullYear now) (month now) (1 + Z.of_nat k))
      (seq 0 (Z.to_nat (date now))).

Definition businessDaysUpTo (host : services) (now : Date) : nat :=
  length (filter (isBusinessDay host) (daysUpTo now)).

(** When the trigger of [setTrigger] fires, [d] being what the clock
    showed. *)
Definition morningOf (d : Date) : Date :=
  {| fullYear := fullYear d; month := month d; date := date d;
     hours := 9; minutes := 0; rest := rest d |}.

(** A host for the examples: the clock stands at a quarter past seven on
    Wednesday 10 January 2024; the calendar has an event on 1 and on
    8 January. *)
Definition sampleClock (n : nat) : Date :=
  {| fullYear := 2024; month := 0; date := 10;
     hours := 7; minutes := 15; rest := 30 |}.

Definition sampleServices : services :=
  {| clock := sampleClock;
     holidayEvents := fun y m d =>
       if ((y =? 2024) && (m =? 0) && ((d =? 1) || (d =? 8)))%Z
       then 1%nat else 0%nat;
     SLACK_URL := js "https://hooks.slack.com/services/T/B/x" |}.

(** The same host five days earlier, on Friday 5 January. *)
Definition earlyServices : services :=
  {| clock := fun _ => newDate 2024 0 5;
     holidayEvents := holidayEvents sampleServices;
     SLACK_URL := SLACK_URL sampleServices |}.

Definition sampleProject : project :=
  {| reads := 0%nat;
     triggers := [{| uid := 0%nat; handler := js "myFunction";
                     at_ := newDate 2024 0 9 |};
                  {| uid := 1%nat; handler := js "report";
                     at_ := newDate 2024 0 20 |}];
     nextUid := 2%nat;
     posts := [] |}.

End Schedule.

(* ================================================================== *)
(** * Properties *)
(* ================================================================== *)

Unset Implicit Arguments.

Module JSFacts.

Lemma streq_refl s : streq s s = true.
Proof.
  induction s as [|c s IH]; simpl; [reflexivity|].
  now rewrite N.eqb_refl, IH.
Qed.

Lemma streq_eq a b : streq a b = true <-> a = b.
Proof.
  split.
  - revert b; induction a as [|x a IH]; intros [|y b] H; simpl in H;
      try discriminate; [reflexivity|].
    apply andb_true_iff in H as [Hxy Hab].
    apply N.eqb_eq in Hxy. f_equal; auto.
  - intros ->. apply streq_refl.
Qed.

Lemma streq_neq a b : streq a b = false <-> a <> b.
Proof.
  split.
  - intros H E. apply streq_eq in E. congruence.
  - intros H. destruct (streq a b) eqn:E; [|reflexivity].
    apply streq_eq in E. contradiction.
Qed.

Lemma isEmpty_true s : isEmpty s = true <-> s = [].
Proof. destruct s; simpl; split; intros; congruence. Qed.

Lemma isEmpty_false s : isEmpty s = false <-> s <> [].
Proof. destruct s; simpl; split; intros; congruence. Qed.

Lemma startsWith_app p r : startsWith p (p ++ r) = true.
Proof.
  induction p as [|x p IH]; simpl; [reflexivity|].
  now rewrite N.eqb_refl, IH.
Qed.

Lemma startsWith_spec p s :
  startsWith p s = true <-> exists r, s = p ++ r.
Proof.
  split.
  - revert s; induction p as [|x p IH]; intros s H.
    + now exists s.
    + destruct s as [|y s]; simpl in H; [discriminate|].
      apply andb_true_iff in H as [Hxy Hps].
      apply N.eqb_eq in Hxy. subst y.
      destruct (IH _ Hps) as [r ->]. now exists r.
  - intros [r ->]. apply startsWith_app.
Qed.

Lemma endsWith_spec p s :
  endsWith p s = true <-> exists r, s = r ++ p.
Proof.
  unfold endsWith. rewrite startsWith_spec. split.
  - intros [r H]. exists (rev r).
    rewrite <- (rev_involutive s), H, rev_app_distr, rev_involutive.
    reflexivity.
  - intros [r ->]. exists (rev r). apply rev_app_distr.
Qed.

Lemma includes_startsWith p s :
  startsWith p s = true -> includes p s = true.
Proof. intros H. destruct s; simpl; rewrite H; reflexivity. Qed.

Lemma includes_spec p s :
  includes p s = true <-> occursIn p s.
Proof.
  unfold occursIn. split.
  - induction s as [|c s IH]; simpl; intros H.
    + rewrite orb_false_r in H. apply startsWith_spec in H as [r ->].
      now exists [], r.
    + apply orb_true_iff in H as [H|H].
      * apply startsWith_spec in H as [r ->]. now exists [], r.
      * destruct (IH H) as (a & b & ->). now exists (c :: a), b.
  - intros (a & b & ->). induction a as [|c a IH].
    + simpl app. apply includes_startsWith, startsWith_app.
    + simpl. rewrite IH. apply orb_true_r.
Qed.

Lemma occursIn_trans a b c : occursIn a b -> occursIn b c -> occursIn a c.
Proof.
  intros (x & y & ->) (u & v & ->).
  exists (u ++ x), (y ++ v). now rewrite <- !app_assoc.
Qed.

Lemma js_app a b : js (a ++ b) = js a ++ js b.
Proof. induction a as [|c a IH]; simpl; [reflexivity|now rewrite IH]. Qed.

(** ** Splitting and joining *)

Lemma splitParts_fst_nosep sep s : ~ In sep (fst (splitParts sep s)).
Proof.
  induction s as [|c s IH]; simpl; [tauto|].
  destruct (splitParts sep s) as [w ws]. simpl in IH.
  destruct (N.eqb_spec c sep); simpl; [tauto|].
  intros [H|H]; [congruence|contradiction].
Qed.

Lemma split_pieces_nosep sep s : Forall (fun w => ~ In sep w) (split sep s).
Proof.
  unfold split. induction s as [|c s IH]; simpl.
  - constructor; [tauto|constructor].
  - destruct (splitParts sep s) as [w ws].
    inversion IH as [|? ? Hw Hws]; subst.
    destruct (N.eqb_spec c sep).
    + constructor; [simpl; tauto|]. constructor; assumption.
    + constructor; [|assumption].
      intros [H|H]; [congruence|contradiction].
Qed.

Lemma split_nosep sep s : ~ In sep s -> split sep s = [s].
Proof.
  unfold split. induction s as [|c s IH]; simpl; intros H; [reflexivity|].
  destruct (splitParts sep s) as [w ws].
  destruct (N.eqb_spec c sep) as [->|Hc]; [tauto|].
  assert (E : w :: ws = [s]) by (apply IH; tauto).
  now inversion E.
Qed.

Lemma split_app_sep sep a b :
  ~ In sep a -> split sep (a ++ sep :: b) = a :: split sep b.
Proof.
  unfold split. induction a as [|c a IH]; simpl; intros H.
  - destruct (splitParts sep b) as [w ws]. now rewrite N.eqb_refl.
  - destruct (splitParts sep (a ++ sep :: b)) as [w ws].
    destruct (splitParts sep b) as [w' ws'].
    destruct (N.eqb_spec c sep) as [->|Hc]; [tauto|].
    assert (E : w :: ws = a :: w' :: ws') by (apply IH; tauto).
    now inversion E.
Qed.

Lemma split_join sep segs :
  segs <> [] -> Forall (fun w => ~ In sep w) segs ->
  split sep (joinWith [sep] segs) = segs.
Proof.
  induction segs as [|w ws IH]; intros Hne H; [congruence|].
  inversion H as [|? ? Hw Hws]; subst.
  destruct ws as [|w' ws'].
  - simpl. now apply split_nosep.
  - change (joinWith [sep] (w :: w' :: ws'))
      with (w ++ sep :: joinWith [sep] (w' :: ws')).
    rewrite split_app_sep by assumption.
    f_equal. apply IH; [discriminate|assumption].
Qed.

Lemma joinWith_cons sep w ws :
  ws <> [] -> joinWith sep (w :: ws) = w ++ sep ++ joinWith sep ws.
Proof. destruct ws; [congruence|reflexivity]. Qed.

Lemma joinWith_snoc sep ws w :
  ws <> [] -> joinWith sep (ws ++ [w]) = joinWith sep ws ++ sep ++ w.
Proof.
  induction ws as [|x ws IH]; intros Hne; [congruence|].
  destruct ws as [|y ws'].
  - reflexivity.
  - change ((x :: y :: ws') ++ [w]) with (x :: (y :: ws') ++ [w]).
    rewrite (joinWith_cons sep x ((y :: ws') ++ [w])) by discriminate.
    rewrite IH by discriminate.
    rewrite (joinWith_cons sep x (y :: ws')) by discriminate.
    now rewrite <- !app_assoc.
Qed.

Lemma split_cons sep c s :
  split sep (c :: s) =
  if N.eqb c sep then [] :: split sep s
  else match split sep s with
       | w :: ws => (c :: w) :: ws
       | [] => [[c]]
       end.
Proof.
  unfold split. simpl. destruct (splitParts sep s) as [w ws].
  now destruct (N.eqb c sep).
Qed.

Lemma split_not_nil sep s : split sep s <> [].
Proof. unfold split. now destruct (splitParts sep s). Qed.

(** Splitting around a separator splits both sides. *)
Lemma split_app sep a b :
  split sep (a ++ sep :: b) = split sep a ++ split sep b.
Proof.
  induction a as [|c a IH].
  - simpl app. rewrite split_cons, N.eqb_refl. reflexivity.
  - simpl app. rewrite !split_cons, IH.
    destruct (N.eqb c sep); [reflexivity|].
    destruct (split sep a) as [|w ws] eqn:E.
    + now apply split_not_nil in E.
    + reflexivity.
Qed.

(** The last piece of a split is what follows the last separator. *)
Lemma last_split_app sep a b :
  ~ In sep b -> last (split sep (a ++ sep :: b)) [] = b.
Proof.
  intros Hb. rewrite split_app, (split_nosep _ _ Hb).
  apply last_last.
Qed.

End JSFacts.

Import JSFacts.

(* ------------------------------------------------------------------ *)
(** ** Trimming, extensions and the sanitizer *)
(* ------------------------------------------------------------------ *)

Module SanitizeFacts.

Lemma dropWhile_split p s :
  exists a, s = a ++ dropWhile p s /\ Forall (fun c => p c = true) a.
Proof.
  induction s as [|c s (a & E & Ha)]; simpl.
  - now exists [].
  - destruct (p c) eqn:Hc.
    + exists (c :: a). split; [simpl; congruence|now constructor].
    + now exists [].
Qed.

Lemma dropWhile_head p s c r : dropWhile p s = c :: r -> p c = false.
Proof.
  induction s as [|x s IH]; simpl; [discriminate|].
  destruct (p x) eqn:Hx; [exact IH|].
  intros E. inversion E. congruence.
Qed.

Lemma dropWhile_id p s :
  match s with c :: _ => p c = false | [] => True end -> dropWhile p s = s.
Proof. destruct s as [|c s]; simpl; [reflexivity|]. now intros ->. Qed.

Lemma dropWhileEnd_split p s :
  exists b, s = dropWhileEnd p s ++ b /\ Forall (fun c => p c = true) b.
Proof.
  unfold dropWhileEnd.
  destruct (dropWhile_split p (rev s)) as (a & E & Ha).
  exists (rev a). split.
  - rewrite <- rev_app_distr, <- E. symmetry. apply rev_involutive.
  - apply Forall_rev. exact Ha.
Qed.

Lemma dropWhileEnd_nosuch p s :
  Forall (fun c => p c = false) s -> dropWhileEnd p s = s.
Proof.
  intros H. unfold dropWhileEnd.
  rewrite dropWhile_id; [apply rev_involutive|].
  apply Forall_rev in H.
  destruct (rev s) as [|c r]; [exact I|]. now inversion H.
Qed.

(** Trimming keeps a piece of the text in the middle of it. *)
Lemma trim_split s :
  exists a b, s = a ++ trimDotsSpaces s ++ b.
Proof.
  unfold trimDotsSpaces.
  destruct (dropWhile_split isSpaceOrDot s) as (a & Ea & _).
  destruct (dropWhileEnd_split isSpaceOrDot (dropWhile isSpaceOrDot s))
    as (b & Eb & _).
  exists a, b. now rewrite <- Eb.
Qed.

Lemma trim_In s c : In c (trimDotsSpaces s) -> In c s.
Proof.
  destruct (trim_split s) as (a & b & E). intros H.
  rewrite E. apply in_or_app. right. apply in_or_app. now left.
Qed.

(** The trimmed text does not start with a dot or a space. *)
Lemma trim_head s c r : trimDotsSpaces s = c :: r -> isSpaceOrDot c = false.
Proof.
  unfold trimDotsSpaces. intros E.
  destruct (dropWhileEnd_split isSpaceOrDot (dropWhile isSpaceOrDot s))
    as (b & Eb & _).
  rewrite E in Eb. simpl in Eb.
  exact (dropWhile_head _ _ _ _ Eb).
Qed.

(** ** The last component and the extension *)

Lemma lastComponent_noslash s : ~ In Path.slash s -> Path.lastComponent s = s.
Proof.
  intros H. unfold Path.lastComponent.
  rewrite dropWhileEnd_nosuch.
  - now rewrite split_nosep.
  - apply Forall_forall. intros c Hc.
    destruct (N.eqb_spec Path.slash c); [subst; contradiction|reflexivity].
Qed.

Lemma splitLastDot_some s pre post :
  Path.splitLastDot s = Some (pre, post) ->
  s = pre ++ Path.dot :: post /\ ~ In Path.dot post.
Proof.
  revert pre post. induction s as [|c s IH]; simpl; intros pre post H;
    [discriminate|].
  destruct (Path.splitLastDot s) as [[pre' post']|] eqn:E.
  - inversion H; subst. destruct (IH _ _ eq_refl) as [-> Hp].
    now split.
  - destruct (N.eqb_spec c Path.dot); [|discriminate].
    inversion H; subst. split; [reflexivity|].
    clear -E. induction post as [|x post IH]; simpl in *; [tauto|].
    destruct (Path.splitLastDot post) as [[? ?]|]; [discriminate|].
    destruct (N.eqb_spec x Path.dot); [discriminate|].
    intros [F|F]; [congruence|]. now apply IH.
Qed.

(** The shape of [extname] on a name without separator. *)
Lemma extname_cases f :
  ~ In Path.slash f ->
  Path.extname f = [] \/
  exists pre post,
    pre <> [] /\ f = pre ++ Path.dot :: post /\
    Path.extname f = Path.dot :: post.
Proof.
  intros Hf. unfold Path.extname. rewrite lastComponent_noslash by exact Hf.
  destruct (Path.splitLastDot f) as [[pre post]|] eqn:E; [|now left].
  apply splitLastDot_some in E as [-> Hpost].
  destruct pre as [|c pre]; [now left|].
  cbn [isEmpty].
  destruct (streq (c :: pre) [Path.dot] && isEmpty post); [now left|].
  right. exists (c :: pre), post. repeat split. discriminate.
Qed.

Lemma firstn_app_exact {A} (a b : list A) : firstn (length a) (a ++ b) = a.
Proof.
  rewrite firstn_app, Nat.sub_diag, firstn_all. simpl. apply app_nil_r.
Qed.

(** A name without separator is its stem followed by its extension. *)
Lemma stem_ext f :
  ~ In Path.slash f ->
  Path.basename f (Path.extname f) ++ Path.extname f = f.
Proof.
  intros Hf. destruct (extname_cases f Hf) as [E|(pre & post & Hpre & Ef & E)].
  - rewrite E. unfold Path.basename. simpl.
    rewrite lastComponent_noslash by exact Hf. apply app_nil_r.
  - rewrite E. unfold Path.basename.
    rewrite lastComponent_noslash by exact Hf.
    cbn [isEmpty orb].
    assert (Hlen : length f = length pre + length (Path.dot :: post)).
    { rewrite Ef at 1. apply length_app. }
    assert (Hne : length pre <> 0) by (destruct pre; simpl; congruence).
    destruct (Nat.ltb_spec (length f) (length (Path.dot :: post))); [lia|].
    assert (Hneq : streq (Path.dot :: post) f = false).
    { apply streq_neq. intros C. rewrite <- C in Hlen. lia. }
    rewrite Hneq.
    assert (Hend : endsWith (Path.dot :: post) f = true).
    { apply endsWith_spec. now exists pre. }
    rewrite Hend. cbn [andb negb].
    replace (length f - length (Path.dot :: post)) with (length pre) by lia.
    rewrite Ef at 1. rewrite firstn_app_exact. now rewrite <- Ef.
Qed.

Lemma extname_In f c : ~ In Path.slash f -> In c (Path.extname f) -> In c f.
Proof.
  intros Hf H. rewrite <- (stem_ext f Hf). apply in_or_app. now right.
Qed.

Lemma basename_In f c :
  ~ In Path.slash f -> In c (Path.basename f (Path.extname f)) -> In c f.
Proof.
  intros Hf H. rewrite <- (stem_ext f Hf). apply in_or_app. now left.
Qed.

(** ** The truncation step *)

Lemma firstn_In {A} n (l : list A) x : In x (firstn n l) -> In x l.
Proof.
  intros H. rewrite <- (firstn_skipn n l). apply in_or_app. now left.
Qed.

Lemma limitLength_short f :
  length f <= MAX_FILENAME_LENGTH -> limitLength f = f.
Proof.
  intros H. unfold limitLength.
  destruct (Nat.ltb_spec MAX_FILENAME_LENGTH (length f)); [lia|reflexivity].
Qed.

Lemma limitLength_long f :
  MAX_FILENAME_LENGTH < length f ->
  limitLength f =
  substring0 (Path.basename f (Path.extname f))
    (Z.of_nat MAX_FILENAME_LENGTH - Z.of_nat (length (Path.extname f)))
    ++ Path.extname f.
Proof.
  intros H. unfold limitLength.
  destruct (Nat.ltb_spec MAX_FILENAME_LENGTH (length f)); [reflexivity|lia].
Qed.

Lemma limitLength_In f c : ~ In Path.slash f -> In c (limitLength f) -> In c f.
Proof.
  intros Hf. destruct (Nat.le_gt_cases (length f) MAX_FILENAME_LENGTH) as [H|H].
  - now rewrite limitLength_short.
  - rewrite limitLength_long by exact H. intros Hc.
    apply in_app_or in Hc as [Hc|Hc].
    + apply basename_In; [exact Hf|].
      unfold substring0 in Hc. eapply firstn_In; eassumption.
    + now apply extname_In.
Qed.

Lemma limitLength_long_length f :
  ~ In Path.slash f -> MAX_FILENAME_LENGTH < length f ->
  MAX_FILENAME_LENGTH <= length (limitLength f).
Proof.
  intros Hf H. rewrite limitLength_long by exact H.
  pose proof (f_equal (@length N) (stem_ext f Hf)) as Hlen.
  rewrite length_app in Hlen.
  rewrite length_app. unfold substring0. rewrite length_firstn.
  unfold MAX_FILENAME_LENGTH in *. lia.
Qed.

(** Within the limit whenever the extension alone is. *)
Lemma limitLength_bound f :
  ~ In Path.slash f -> length (Path.extname f) <= MAX_FILENAME_LENGTH ->
  length (limitLength f) <= MAX_FILENAME_LENGTH.
Proof.
  intros Hf He.
  destruct (Nat.le_gt_cases (length f) MAX_FILENAME_LENGTH) as [H|H].
  - now rewrite limitLength_short.
  - rewrite limitLength_long by exact H.
    rewrite length_app. unfold substring0. rewrite length_firstn.
    unfold MAX_FILENAME_LENGTH in *. lia.
Qed.

(** ** The sanitizer *)

(** The name [sanitizeFilename] has built when it reaches the length
    limit. *)
Lemma sanitize_unfold f :
  exists p,
    sanitizeFilename f = (if isEmpty (limitLength p) then js "file"
                          else limitLength p) /\
    (forall c, In c p -> isInvalidChar c = false) /\
    (forall c r, p = c :: r -> c <> Path.dot).
Proof.
  set (t := trimDotsSpaces (replaceInvalid f)).
  assert (Ht : forall c, In c t -> isInvalidChar c = false).
  { intros c Hc. apply trim_In in Hc. unfold replaceInvalid in Hc.
    apply in_map_iff in Hc as (x & <- & _).
    destruct (isInvalidChar x) eqn:E; [reflexivity|exact E]. }
  assert (Hh : forall c r, t = c :: r -> c <> Path.dot).
  { intros c r E. apply trim_head in E. intros ->. discriminate E. }
  exists (if isReserved (stemUpper t) then underscore :: t else t).
  split; [reflexivity|]. split.
  - intros c. destruct (isReserved (stemUpper t)); [|apply Ht].
    intros [<-|Hc]; [reflexivity|now apply Ht].
  - intros c r. destruct (isReserved (stemUpper t)); [|apply Hh].
    intros E. inversion E. discriminate.
Qed.

Lemma invalid_slash p :
  (forall c, In c p -> isInvalidChar c = false) -> ~ In Path.slash p.
Proof. intros H C. apply H in C. discriminate C. Qed.

(** No character of the output is in the disallowed class. *)
Lemma sanitize_valid f c :
  In c (sanitizeFilename f) -> isInvalidChar c = false.
Proof.
  destruct (sanitize_unfold f) as (p & -> & Hp & _).
  destruct (isEmpty (limitLength p)).
  - simpl. intros H.
    repeat (destruct H as [<-|H]; [reflexivity|]). contradiction.
  - intros H. apply Hp. apply limitLength_In; [|exact H].
    now apply invalid_slash.
Qed.

Lemma sanitize_nonempty f : sanitizeFilename f <> [].
Proof.
  destruct (sanitize_unfold f) as (p & -> & _).
  destruct (isEmpty (limitLength p)) eqn:E; [discriminate|].
  now apply isEmpty_false.
Qed.

(** The output can stand as one segment of a path. *)
Lemma sanitize_clean f : cleanName (sanitizeFilename f).
Proof.
  split; [apply sanitize_nonempty|]. split.
  { apply invalid_slash. intros c. apply sanitize_valid. }
  destruct (sanitize_unfold f) as (p & -> & Hp & Hh).
  destruct (isEmpty (limitLength p)) eqn:E; [split; discriminate|].
  destruct (Nat.le_gt_cases (length p) MAX_FILENAME_LENGTH) as [H|H].
  - rewrite limitLength_short in * by exact H.
    destruct p as [|c r]; [discriminate|].
    specialize (Hh c r eq_refl).
    split; intros C; inversion C; contradiction.
  - pose proof (limitLength_long_length p (invalid_slash p Hp) H) as Hl.
    unfold MAX_FILENAME_LENGTH in Hl.
    split; intros C; rewrite C in Hl; simpl in Hl; lia.
Qed.

(** ** Numbered names *)

Lemma js_inj a b : js a = js b -> a = b.
Proof.
  revert b; induction a as [|x a IH]; intros [|y b] H; simpl in H;
    try discriminate; [reflexivity|].
  inversion H as [[Hxy Hab]].
  f_equal; [|now apply IH].
  rewrite <- (ascii_N_embedding x), <- (ascii_N_embedding y). congruence.
Qed.

Lemma decimal_inj a b : decimal a = decimal b -> a = b.
Proof.
  unfold decimal. intros H. apply js_inj in H.
  assert (E : N.to_uint a = N.to_uint b).
  { pose proof (NilEmpty.usu (N.to_uint a)) as Ha.
    pose proof (NilEmpty.usu (N.to_uint b)) as Hb.
    rewrite H in Ha. congruence. }
  rewrite <- (DecimalN.Unsigned.of_to a), <- (DecimalN.Unsigned.of_to b).
  congruence.
Qed.

Lemma string_of_uint_digits d c :
  In c (js (NilEmpty.string_of_uint d)) -> isDigit c = true.
Proof.
  induction d; simpl; intros H; try contradiction;
    (destruct H as [<-|H]; [reflexivity|now apply IHd]).
Qed.

Lemma decimal_digits n c : In c (decimal n) -> isDigit c = true.
Proof. apply string_of_uint_digits. Qed.

Lemma numbered_inj f a b : numbered f a = numbered f b -> a = b.
Proof.
  unfold numbered. intros H.
  apply app_inv_head in H. apply app_inv_head in H.
  apply app_inv_tail in H. now apply decimal_inj.
Qed.

Lemma numbered_clean f k : ~ In Path.slash f -> cleanName (numbered f k).
Proof.
  intros Hf.
  assert (Hu : In underscore (numbered f k)).
  { unfold numbered. apply in_or_app. right. now left. }
  split; [|split; [|split]].
  - intros C. rewrite C in Hu. contradiction.
  - unfold numbered. intros C.
    apply in_app_or in C as [C|C]; [now apply Hf, basename_In|].
    apply in_app_or in C as [C|C].
    { destruct C as [C|C]; [discriminate C|contradiction]. }
    apply in_app_or in C as [C|C]; [|now apply Hf, extname_In].
    apply decimal_digits in C. discriminate C.
  - intros C. rewrite C in Hu. simpl in Hu.
    destruct Hu as [Hu|Hu]; [discriminate Hu|contradiction].
  - intros C. rewrite C in Hu. simpl in Hu.
    destruct Hu as [Hu|[Hu|Hu]]; try discriminate Hu; contradiction.
Qed.

End SanitizeFacts.

Import SanitizeFacts.

(* ------------------------------------------------------------------ *)
(** ** Paths in normal form *)
(* ------------------------------------------------------------------ *)

Module PathFacts.

Lemma cleanName_step kept seg :
  cleanName seg -> Path.normStep false kept seg = seg :: kept.
Proof.
  intros (Hne & _ & Hd & Hdd). unfold Path.normStep.
  apply isEmpty_false in Hne. apply streq_neq in Hd, Hdd.
  now rewrite Hne, Hd, Hdd.
Qed.

Lemma normStep_clean kept seg :
  Forall cleanName kept -> ~ In Path.slash seg ->
  Forall cleanName (Path.normStep false kept seg).
Proof.
  intros Hk Hs. unfold Path.normStep.
  destruct (isEmpty seg) eqn:E1; [exact Hk|].
  destruct (streq seg (js ".")) eqn:E2; [exact Hk|]. cbn [orb].
  destruct (streq seg (js "..")) eqn:E3.
  - destruct kept as [|top kept']; [constructor|].
    inversion Hk; subst.
    destruct (streq top (js "..")); assumption.
  - constructor; [|exact Hk].
    repeat split; [now apply isEmpty_false|exact Hs| |]; now apply streq_neq.
Qed.

Lemma fold_normStep_clean segs kept :
  Forall cleanName kept -> Forall (fun w => ~ In Path.slash w) segs ->
  Forall cleanName (fold_left (Path.normStep false) segs kept).
Proof.
  revert kept. induction segs as [|w ws IH]; intros kept Hk Hs; [exact Hk|].
  inversion Hs; subst. simpl. apply IH; [|assumption].
  now apply normStep_clean.
Qed.

Lemma fold_normStep_cleans segs kept :
  Forall cleanName segs ->
  fold_left (Path.normStep false) segs kept = rev segs ++ kept.
Proof.
  revert kept. induction segs as [|w ws IH]; intros kept H; [reflexivity|].
  inversion H; subst. simpl.
  rewrite cleanName_step by assumption.
  rewrite IH by assumption. now rewrite <- app_assoc.
Qed.

Lemma cleanName_noslash : forall n, cleanName n -> ~ In Path.slash n.
Proof. now intros n (_ & H & _). Qed.

Lemma Forall_clean_noslash segs :
  Forall cleanName segs -> Forall (fun w => ~ In Path.slash w) segs.
Proof. apply Forall_impl, cleanName_noslash. Qed.

(** The pieces of an absolute path in normal form, followed by a slash and
    [tail]. *)
Lemma split_absolute segs tail :
  Forall cleanName segs ->
  split Path.slash (Path.slash :: joinWith [Path.slash] segs
                      ++ Path.slash :: tail)
  = ([] : jsstring) :: match segs with [] => [[]] | _ => segs end
      ++ split Path.slash tail.
Proof.
  intros H.
  change (Path.slash :: joinWith [Path.slash] segs ++ Path.slash :: tail)
    with ([] ++ Path.slash :: (joinWith [Path.slash] segs
                                 ++ Path.slash :: tail)).
  rewrite split_app, split_app.
  destruct segs as [|w ws]; [reflexivity|].
  rewrite split_join; [reflexivity|discriminate|].
  now apply Forall_clean_noslash.
Qed.

Lemma normalize_absolute segs tail :
  Forall cleanName segs -> Forall cleanName tail ->
  Path.normalizeSegments false
    (Path.slash :: joinWith [Path.slash] segs
       ++ Path.slash :: joinWith [Path.slash] tail)
  = segs ++ tail.
Proof.
  intros Hs Ht. unfold Path.normalizeSegments.
  rewrite split_absolute by exact Hs.
  assert (Hfold : forall pre kept,
             fold_left (Path.normStep false)
               (pre ++ split Path.slash (joinWith [Path.slash] tail)) kept
             = rev tail ++ fold_left (Path.normStep false) pre kept).
  { intros pre kept. rewrite fold_left_app.
    destruct tail as [|t ts].
    - reflexivity.
    - rewrite split_join;
        [|discriminate|now apply Forall_clean_noslash].
      now apply fold_normStep_cleans. }
  destruct segs as [|w ws].
  - change (([] : jsstring) :: [[]] ++ split Path.slash (joinWith [Path.slash] tail))
      with ([[]; []] ++ split Path.slash (joinWith [Path.slash] tail)).
    rewrite Hfold. simpl. now rewrite app_nil_r, rev_involutive.
  - change (([] : jsstring) :: (w :: ws)
              ++ split Path.slash (joinWith [Path.slash] tail))
      with (([] :: w :: ws)
              ++ split Path.slash (joinWith [Path.slash] tail)).
    rewrite Hfold.
    change (fold_left (Path.normStep false) ([] :: w :: ws) [])
      with (fold_left (Path.normStep false) (w :: ws) []).
    rewrite fold_normStep_cleans by exact Hs.
    rewrite app_nil_r, rev_app_distr, !rev_involutive. reflexivity.
Qed.

Lemma endsWith_slash_clean a n :
  cleanName n -> endsWith [Path.slash] (a ++ n) = false.
Proof.
  intros (Hne & Hs & _).
  destruct (endsWith [Path.slash] (a ++ n)) eqn:E; [|reflexivity].
  apply endsWith_spec in E as [r E]. exfalso.
  destruct (exists_last Hne) as (n' & c & ->).
  rewrite app_assoc in E. apply app_inj_tail in E as [_ ->].
  apply Hs, in_or_app. right. now left.
Qed.

Lemma joinWith_nonempty segs w :
  w <> [] -> joinWith [Path.slash] (segs ++ [w]) <> [].
Proof.
  intros Hw. destruct segs as [|x xs]; [exact Hw|].
  rewrite <- app_comm_cons.
  destruct (xs ++ [w]) as [|y ys] eqn:E.
  - now destruct xs.
  - rewrite joinWith_cons by discriminate.
    intros C. apply app_eq_nil in C as [_ C]. discriminate C.
Qed.

Lemma joinWith_last segs n :
  exists a, joinWith [Path.slash] (segs ++ [n]) = a ++ n.
Proof.
  destruct segs as [|x xs]; [now exists []|].
  rewrite joinWith_snoc by discriminate.
  exists (joinWith [Path.slash] (x :: xs) ++ [Path.slash]).
  now rewrite <- app_assoc.
Qed.

(** An absolute path in normal form is its own normal form. *)
Lemma normalize_absolute_path segs n :
  Forall cleanName segs -> cleanName n ->
  Path.normalize (Path.slash :: joinWith [Path.slash] (segs ++ [n]))
  = Path.slash :: joinWith [Path.slash] (segs ++ [n]).
Proof.
  intros Hs Hn.
  assert (Hall : Forall cleanName (segs ++ [n])).
  { apply Forall_app. split; [exact Hs|now constructor]. }
  assert (Hne : segs ++ [n] <> []) by (now destruct segs).
  unfold Path.normalize. cbn [isEmpty Path.isAbsolute].
  rewrite !N.eqb_refl. cbn [negb].
  assert (Hbody : Path.normalizeString false
                    (Path.slash :: joinWith [Path.slash] (segs ++ [n]))
                  = joinWith [Path.slash] (segs ++ [n])).
  { unfold Path.normalizeString, Path.normalizeSegments.
    rewrite split_cons, N.eqb_refl.
    rewrite split_join; [|exact Hne|now apply Forall_clean_noslash].
    cbn [fold_left]. change (Path.normStep false [] []) with (@nil jsstring).
    rewrite fold_normStep_cleans by exact Hall.
    now rewrite app_nil_r, rev_involutive. }
  rewrite Hbody.
  assert (Hnonempty : isEmpty (joinWith [Path.slash] (segs ++ [n])) = false).
  { apply isEmpty_false, joinWith_nonempty. apply Hn. }
  rewrite Hnonempty.
  destruct (joinWith_last segs n) as [a Ea].
  assert (Hend : endsWith [Path.slash]
                   (Path.slash :: joinWith [Path.slash] (segs ++ [n]))
                 = false).
  { rewrite Ea.
    change (Path.slash :: a ++ n) with ((Path.slash :: a) ++ n).
    now apply endsWith_slash_clean. }
  rewrite Hend. cbn [app]. now rewrite app_nil_r.
Qed.

(** Joining a clean name to an absolute directory appends it. *)
Lemma join_child dir segs n :
  absolutePath dir segs -> segs <> [] -> cleanName n ->
  Path.join dir n = dir ++ [Path.slash] ++ n /\
  absolutePath (dir ++ [Path.slash] ++ n) (segs ++ [n]).
Proof.
  intros [-> Hs] Hne Hn.
  assert (Hjoin : Path.slash :: joinWith [Path.slash] (segs ++ [n])
                  = (Path.slash :: joinWith [Path.slash] segs)
                      ++ [Path.slash] ++ n).
  { rewrite joinWith_snoc by exact Hne. reflexivity. }
  split.
  - unfold Path.join. cbn [isEmpty].
    destruct Hn as (Hn0 & Hn'). apply isEmpty_false in Hn0 as Hn1.
    rewrite Hn1. rewrite <- Hjoin.
    apply normalize_absolute_path; [exact Hs|now split].
  - split; [symmetry; exact Hjoin|].
    apply Forall_app. split; [exact Hs|]. now constructor.
Qed.

(** A clean name is kept by every normalisation step. *)
Lemma cleanName_step_any allow kept seg :
  cleanName seg -> Path.normStep allow kept seg = seg :: kept.
Proof.
  intros (Hne & _ & Hd & Hdd). unfold Path.normStep.
  apply isEmpty_false in Hne. apply streq_neq in Hd, Hdd.
  now rewrite Hne, Hd, Hdd.
Qed.

(** Joining a clean name to any directory appends it to the segments of
    the directory. *)
Lemma join_clean dir n :
  cleanName n ->
  Path.join dir n
  = rootOf dir ++ joinWith [Path.slash] (dirSegments dir ++ [n]).
Proof.
  intros Hn. pose proof Hn as (Hne & Hs & _).
  apply isEmpty_false in Hne as Hne'.
  assert (Hsegs : forall allow d,
             Path.normalizeSegments allow (d ++ Path.slash :: n)
             = Path.normalizeSegments allow d ++ [n]).
  { intros allow d. unfold Path.normalizeSegments.
    rewrite split_app, fold_left_app, (split_nosep _ _ Hs).
    cbn [fold_left]. now rewrite cleanName_step_any. }
  unfold Path.join, rootOf, dirSegments. rewrite Hne'.
  destruct dir as [|c d]; cbn [isEmpty Path.isAbsolute].
  - unfold Path.normalize. rewrite Hne'.
    assert (Habs : Path.isAbsolute n = false).
    { destruct n as [|x n']; [reflexivity|]. cbn.
      destruct (N.eqb_spec x Path.slash) as [->|]; [|reflexivity].
      exfalso. apply Hs. now left. }
    rewrite Habs. cbn [negb].
    pose proof (endsWith_slash_clean [] n Hn) as Hend. cbn [app] in Hend.
    rewrite Hend.
    unfold Path.normalizeString, Path.normalizeSegments.
    rewrite (split_nosep _ _ Hs). cbn [fold_left].
    rewrite cleanName_step_any by exact Hn.
    cbn [rev app joinWith split fold_left]. rewrite Hne'.
    now rewrite app_nil_r.
  - unfold Path.normalize. cbn [app isEmpty Path.isAbsolute].
    change (c :: d ++ Path.slash :: n) with ((c :: d) ++ Path.slash :: n).
    unfold Path.normalizeString. rewrite Hsegs.
    assert (Hbody : isEmpty
                      (joinWith [Path.slash]
                         (Path.normalizeSegments (negb (c =? Path.slash)%N)
                            (c :: d) ++ [n])) = false).
    { apply isEmpty_false, joinWith_nonempty. exact (proj1 Hn). }
    rewrite Hbody.
    assert (Hend : endsWith [Path.slash] ((c :: d) ++ Path.slash :: n)
                   = false).
    { change ((c :: d) ++ Path.slash :: n)
        with ((c :: d) ++ [Path.slash] ++ n).
      rewrite app_assoc. now apply endsWith_slash_clean. }
    rewrite Hend. now rewrite app_nil_r.
Qed.

Lemma joinWith_snoc_inj segs a b :
  joinWith [Path.slash] (segs ++ [a]) = joinWith [Path.slash] (segs ++ [b]) ->
  a = b.
Proof.
  destruct segs as [|x xs]; [now intros H|].
  rewrite !joinWith_snoc by discriminate. intros H.
  now do 2 apply app_inv_head in H.
Qed.

Lemma join_clean_inj dir a b :
  cleanName a -> cleanName b -> Path.join dir a = Path.join dir b -> a = b.
Proof.
  intros Ha Hb. rewrite !join_clean by assumption. intros H.
  apply app_inv_head in H. now apply joinWith_snoc_inj in H.
Qed.

(** [resolve] yields an absolute path in normal form. *)
Lemma resolve_absolute cwd p :
  Path.isAbsolute cwd = true ->
  exists segs, absolutePath (Path.resolve cwd p) segs.
Proof.
  intros Hc. unfold Path.resolve. rewrite Hc, orb_true_r. cbn [negb].
  eexists. split; [reflexivity|].
  unfold Path.normalizeSegments. apply Forall_rev.
  apply fold_normStep_clean; [constructor|apply split_pieces_nosep].
Qed.

(** [resolve] leaves an absolute path in normal form as it is. *)
Lemma resolve_fixed cwd p segs :
  absolutePath p segs -> Path.resolve cwd p = p.
Proof.
  intros [-> Hs]. unfold Path.resolve.
  cbn [isEmpty Path.isAbsolute].
  rewrite !N.eqb_refl. cbn [orb negb].
  f_equal. unfold Path.normalizeString.
  change ((Path.slash :: joinWith [Path.slash] segs) ++ [Path.slash])
    with (Path.slash :: joinWith [Path.slash] segs
            ++ Path.slash :: joinWith [Path.slash] []).
  rewrite normalize_absolute by (exact Hs || constructor).
  now rewrite app_nil_r.
Qed.

(** The base directory of the script. *)
Lemma resolve_uploaded cwd :
  Path.isAbsolute cwd = true ->
  exists segs,
    absolutePath (Path.resolve cwd (js "uploaded_files"))
      (segs ++ [js "uploaded_files"]).
Proof.
  intros Hc. unfold Path.resolve. rewrite Hc.
  assert (Hne : isEmpty cwd = false) by (now destruct cwd).
  rewrite Hne. cbn [isEmpty Path.isAbsolute orb negb].
  change (Path.isAbsolute (js "uploaded_files")) with false. cbn [orb].
  exists (rev (fold_left (Path.normStep false) (split Path.slash cwd) [])).
  assert (Hk : Forall cleanName
                 (fold_left (Path.normStep false) (split Path.slash cwd) [])).
  { apply fold_normStep_clean; [constructor|apply split_pieces_nosep]. }
  split.
  - f_equal. unfold Path.normalizeString, Path.normalizeSegments.
    f_equal.
    change (isEmpty (js "uploaded_files")) with false. cbn iota.
    change (negb true) with false.
    change (cwd ++ [Path.slash] ++ js "uploaded_files" ++ [Path.slash])
      with (cwd ++ Path.slash :: (js "uploaded_files" ++ [Path.slash])).
    rewrite split_app, fold_left_app.
    change (split Path.slash (js "uploaded_files" ++ [Path.slash]))
      with [js "uploaded_files"; []].
    reflexivity.
  - apply Forall_app. split; [now apply Forall_rev|].
    constructor; [|constructor].
    repeat split; try discriminate.
    intros C. simpl in C.
    repeat (destruct C as [C|C]; [discriminate C|]). contradiction.
Qed.

Lemma filter_clean segs :
  Forall cleanName segs ->
  filter (fun seg => negb (isEmpty seg)) segs = segs.
Proof.
  induction 1 as [|w ws Hw _ IH]; [reflexivity|]. simpl.
  destruct Hw as (Hw & _). apply isEmpty_false in Hw.
  now rewrite Hw, IH.
Qed.

Lemma segments_absolute p segs :
  absolutePath p segs -> Path.segments p = segs.
Proof.
  intros [-> Hs]. unfold Path.segments.
  rewrite split_cons, N.eqb_refl. cbn [filter isEmpty negb].
  destruct segs as [|w ws]; [reflexivity|].
  rewrite split_join; [|discriminate|now apply Forall_clean_noslash].
  now apply filter_clean.
Qed.

Lemma stripCommon_spec a b :
  exists common,
    a = common ++ fst (Path.stripCommon a b) /\
    b = common ++ snd (Path.stripCommon a b).
Proof.
  revert b. induction a as [|x a IH]; intros b.
  - now exists [].
  - destruct b as [|y b]; [now exists []|]. simpl.
    destruct (streq x y) eqn:E; [|now exists []].
    apply streq_eq in E. subst y.
    destruct (IH b) as (common & Ha & Hb).
    exists (x :: common). simpl. now rewrite <- Ha, <- Hb.
Qed.

Lemma startsWith_dotdot rest :
  startsWith (js "..") (joinWith [Path.slash] (js ".." :: rest)) = true.
Proof. destruct rest; reflexivity. Qed.

(** The guard fires whenever the resolved target is not the base or below
    it. *)
Lemma traversal_detected host base target :
  Path.isAbsolute (cwd host) = true ->
  ~ within (cwd host) base target ->
  traversalDetected host base target = true.
Proof.
  intros Hc Hout. unfold traversalDetected.
  destruct (resolve_absolute (cwd host) target Hc) as [B HB].
  destruct (resolve_absolute (cwd host) base Hc) as [A HA].
  assert (Hto : Path.resolve (cwd host) (Path.resolve (cwd host) target)
                = Path.resolve (cwd host) target)
    by (eapply resolve_fixed; exact HB).
  unfold Path.relative. rewrite Hto.
  destruct (streq base (Path.resolve (cwd host) target)) eqn:E1.
  { exfalso. apply Hout. apply streq_eq in E1. exists [].
    rewrite E1, Hto. now rewrite app_nil_r. }
  destruct (streq (Path.resolve (cwd host) base)
              (Path.resolve (cwd host) target)) eqn:E2.
  { exfalso. apply Hout. apply streq_eq in E2. exists [].
    rewrite E2. now rewrite app_nil_r. }
  destruct (stripCommon_spec (Path.segments (Path.resolve (cwd host) base))
              (Path.segments (Path.resolve (cwd host) target)))
    as (common & Ha & Hb).
  destruct (Path.stripCommon (Path.segments (Path.resolve (cwd host) base))
              (Path.segments (Path.resolve (cwd host) target)))
    as [up down].
  simpl in Ha, Hb.
  destruct up as [|u up].
  { exfalso. apply Hout. exists down.
    rewrite Hb, Ha. now rewrite app_nil_r. }
  cbn [map app]. now rewrite startsWith_dotdot.
Qed.

End PathFacts.

(* ------------------------------------------------------------------ *)
(** ** The matcher finds only what the patterns describe *)
(* ------------------------------------------------------------------ *)

Module RegexFacts.

Lemma many_sound (R : Type) cls s (k : jsstring -> jsstring -> option R) r :
  many cls s k = Some r ->
  exists m rest,
    s = m ++ rest /\ Forall (fun c => cls c = true) m /\ k m rest = Some r.
Proof.
  revert k. induction s as [|c s IH]; intros k H; simpl in H.
  - now exists [], [].
  - destruct (cls c) eqn:Hc; [|now exists [], (c :: s)].
    destruct (many cls s (fun m rest => k (c :: m) rest)) as [r'|] eqn:E.
    + inversion H; subst r'.
      apply IH in E as (m & rest & -> & Hm & Hk).
      exists (c :: m), rest. repeat split; [now constructor|exact Hk].
    + now exists [], (c :: s).
Qed.

Lemma run_sound (R : Type) pat :
  forall s (k : jsstring -> jsstring -> option R) r,
    run pat s k = Some r ->
    exists m rest, s = m ++ rest /\ Matches pat m /\ k m rest = Some r.
Proof.
  induction pat as [|a pat IH]; intros s k r H.
  - exists [], s. repeat split; [constructor|exact H].
  - destruct a as [c|cls|cls]; simpl in H.
    + destruct s as [|x s]; [discriminate|].
      destruct (N.eqb_spec x c) as [->|]; [|discriminate].
      apply IH in H as (m & rest & -> & Hm & Hk).
      exists (c :: m), rest. repeat split; [now constructor|exact Hk].
    + destruct s as [|x s]; [discriminate|].
      destruct (cls x) eqn:Hx; [|discriminate].
      apply many_sound in H as (m1 & r1 & -> & Hm1 & H).
      apply IH in H as (m2 & r2 & -> & Hm2 & Hk).
      exists (x :: m1 ++ m2), r2. repeat split.
      * simpl. now rewrite app_assoc.
      * now constructor.
      * exact Hk.
    + apply many_sound in H as (m1 & r1 & -> & Hm1 & H).
      apply IH in H as (m2 & r2 & -> & Hm2 & Hk).
      exists (m1 ++ m2), r2. repeat split.
      * now rewrite app_assoc.
      * now constructor.
      * exact Hk.
Qed.

Lemma execAt_sound re s whole cap :
  execAt re s = Some (whole, cap) ->
  matchOf re whole cap /\ exists rest, s = whole ++ rest.
Proof.
  unfold execAt. intros H.
  apply run_sound in H as (m1 & r1 & -> & Hm1 & H).
  apply run_sound in H as (m2 & r2 & -> & Hm2 & H).
  apply run_sound in H as (m3 & r3 & -> & Hm3 & H).
  inversion H; subst. split.
  - now exists m1, m3.
  - exists r3. now rewrite <- !app_assoc.
Qed.

Lemma occursIn_cons w c s : occursIn w s -> occursIn w (c :: s).
Proof. intros (a & b & ->). now exists (c :: a), b. Qed.

Lemma scan_sound re s : forall skip whole cap,
  In (whole, cap) (scan re s skip) ->
  matchOf re whole cap /\ occursIn whole s.
Proof.
  induction s as [|c s IH]; intros skip whole cap H; simpl in H;
    [contradiction|].
  destruct skip as [|n].
  - destruct (execAt re (c :: s)) as [[w' c']|] eqn:E.
    + destruct H as [H|H].
      * inversion H; subst.
        apply execAt_sound in E as [Hm [rest Hr]].
        split; [exact Hm|]. exists [], rest. exact Hr.
      * apply IH in H as [Hm Ho]. split; [exact Hm|now apply occursIn_cons].
    + apply IH in H as [Hm Ho]. split; [exact Hm|now apply occursIn_cons].
  - apply IH in H as [Hm Ho]. split; [exact Hm|now apply occursIn_cons].
Qed.

Lemma Matches_nil_inv w : Matches [] w -> w = [].
Proof. now inversion 1. Qed.

Lemma Matches_chr1 c w : Matches [Chr c] w -> w = [c].
Proof.
  inversion 1 as [|? ? ? Hw| |]; subst.
  apply Matches_nil_inv in Hw. now subst.
Qed.

(** A match of a bare expression is a text of its shape. *)
Lemma matchOf_bare p whole cap :
  matchOf (bare p) whole cap -> whole = cap /\ Matches p cap.
Proof.
  intros (m1 & m3 & -> & H1 & H2 & H3). simpl in *.
  apply Matches_nil_inv in H1, H3. subst. split; [|exact H2].
  simpl. apply app_nil_r.
Qed.

Lemma matchOf_link url whole cap :
  matchOf (markdownLink url) whole cap ->
  exists m, whole = m ++ cap ++ js ")" /\ Matches linkOpen m
            /\ Matches url cap.
Proof.
  intros (m1 & m3 & -> & H1 & H2 & H3). simpl in *.
  apply Matches_chr1 in H3. subst. now exists m1.
Qed.

Lemma matchOf_img whole cap :
  matchOf imgPattern whole cap ->
  exists m, whole = 33%N :: m ++ cap ++ js ")" /\ Matches linkOpen m
            /\ Matches httpsShape cap.
Proof.
  intros (m1 & m3 & -> & H1 & H2 & H3). simpl in *.
  apply Matches_chr1 in H3. subst.
  inversion H1 as [|? ? w Hw| |]; subst. now exists w.
Qed.

Lemma matchOf_cap_occurs re whole cap :
  matchOf re whole cap -> occursIn cap whole.
Proof. intros (m1 & m3 & -> & _). now exists m1, m3. Qed.

(** ** The set of URLs *)

Lemma setAdd_In set u x : In x (setAdd set u) -> In x set \/ x = u.
Proof.
  unfold setAdd. destruct (existsb (streq u) set); [now left|].
  intros H. apply in_app_or in H as [H|[H|[]]]; auto.
Qed.

Lemma addAll_In urls : forall set x,
  In x (addAll set urls) -> In x set \/ In x urls.
Proof.
  unfold addAll. induction urls as [|u urls IH]; intros set x H; simpl in *.
  - now left.
  - apply IH in H as [H|H]; [|now right; right].
    apply setAdd_In in H as [H|H]; [now left|right; now left].
Qed.

Lemma addAll_nil set : addAll set [] = set.
Proof. reflexivity. Qed.

(** Every URL returned has a recognised form and occurs in the text. *)
Lemma extract_sound text u :
  In u (extractFileUrls text) -> recognizedUrl u /\ occursIn u text.
Proof.
  unfold extractFileUrls, matchAll, execAll. intros H.
  repeat (apply addAll_In in H as [H|H]); [contradiction| | | | | |].
  - apply in_map_iff in H as ([whole cap] & <- & H).
    apply scan_sound in H as [Hm Ho].
    apply matchOf_bare in Hm as [-> Hm]. split; [now left|exact Ho].
  - apply in_map_iff in H as ([whole cap] & <- & H).
    apply scan_sound in H as [Hm Ho].
    apply matchOf_bare in Hm as [-> Hm].
    split; [right; now left|exact Ho].
  - apply in_map_iff in H as ([whole cap] & <- & H).
    apply scan_sound in H as [Hm Ho].
    pose proof (matchOf_cap_occurs _ _ _ Hm) as Hc.
    apply matchOf_link in Hm as (m & _ & _ & Hm).
    split; [now left|eapply occursIn_trans; eassumption].
  - apply in_map_iff in H as ([whole cap] & <- & H).
    apply scan_sound in H as [Hm Ho].
    pose proof (matchOf_cap_occurs _ _ _ Hm) as Hc.
    apply matchOf_link in Hm as (m & _ & _ & Hm).
    split; [right; now left|eapply occursIn_trans; eassumption].
  - apply in_map_iff in H as ([whole cap] & <- & H).
    apply scan_sound in H as [Hm Ho].
    pose proof (matchOf_cap_occurs _ _ _ Hm) as Hc.
    apply matchOf_link in Hm as (m & _ & _ & Hm).
    split; [right; right; now left|eapply occursIn_trans; eassumption].
  - apply filter_In in H as [H Hg].
    apply in_map_iff in H as ([whole cap] & <- & H).
    apply scan_sound in H as [Hm Ho].
    pose proof (matchOf_cap_occurs _ _ _ Hm) as Hc.
    apply matchOf_img in Hm as (m & _ & _ & Hm).
    split; [right; right; right; now split
           |eapply occursIn_trans; eassumption].
Qed.

(** Every URL returned comes from a recognised shape in the text. *)
Lemma extract_shape text u :
  In u (extractFileUrls text) ->
  exists w, occursIn w text /\ recognizedShape w.
Proof.
  unfold extractFileUrls, matchAll, execAll. intros H.
  repeat (apply addAll_In in H as [H|H]); [contradiction| | | | | |].
  - apply in_map_iff in H as ([whole cap] & <- & H).
    apply scan_sound in H as [Hm Ho].
    apply matchOf_bare in Hm as [-> Hm]. exists cap. split; [exact Ho|now left].
  - apply in_map_iff in H as ([whole cap] & <- & H).
    apply scan_sound in H as [Hm Ho].
    apply matchOf_bare in Hm as [-> Hm].
    exists cap. split; [exact Ho|right; now left].
  - apply in_map_iff in H as ([whole cap] & <- & H).
    apply scan_sound in H as [Hm Ho].
    pose proof (matchOf_cap_occurs _ _ _ Hm) as Hc.
    apply matchOf_link in Hm as (m & _ & _ & Hm).
    exists cap. split; [eapply occursIn_trans; eassumption|now left].
  - apply in_map_iff in H as ([whole cap] & <- & H).
    apply scan_sound in H as [Hm Ho].
    pose proof (matchOf_cap_occurs _ _ _ Hm) as Hc.
    apply matchOf_link in Hm as (m & _ & _ & Hm).
    exists cap. split; [eapply occursIn_trans; eassumption|right; now left].
  - apply in_map_iff in H as ([whole cap] & <- & H).
    apply scan_sound in H as [Hm Ho].
    apply matchOf_link in Hm as (m & E & Hl & Hm).
    exists whole. split; [exact Ho|].
    right; right; left. now exists m, cap.
  - apply filter_In in H as [H Hg].
    apply in_map_iff in H as ([whole cap] & <- & H).
    apply scan_sound in H as [Hm Ho].
    apply matchOf_img in Hm as (m & E & Hl & Hm).
    exists whole. split; [exact Ho|].
    right; right; right. exists m, cap. repeat split; assumption.
Qed.

End RegexFacts.

Import PathFacts RegexFacts.

(* ------------------------------------------------------------------ *)
(** ** Domain validation *)
(* ------------------------------------------------------------------ *)

Lemma allowed_iff host url :
  isAllowedGithubDomain host url = true <->
  exists h, URL_hostname host url = Some h /\ trustedHost h.
Proof.
  unfold isAllowedGithubDomain, trustedHost.
  destruct (URL_hostname host url) as [h|].
  - rewrite !orb_true_iff, !streq_eq, endsWith_spec. split.
    + intros H. exists h. split; [reflexivity|tauto].
    + intros (h' & E & H). inversion E; subst. tauto.
  - split; [discriminate|]. now intros (h & E & _).
Qed.

(** C2: the validator answers true exactly when the URL parses and its host
    is github.com, githubusercontent.com or a subdomain of the latter; a
    string that does not parse is refused; so the hosts github.com,
    raw.githubusercontent.com and user-images.githubusercontent.com are
    accepted and the host evil.com is refused, whatever the path says. *)
Theorem isAllowedGithubDomain_spec (host : platform) :
  (forall url,
     isAllowedGithubDomain host url = true <->
     exists h, URL_hostname host url = Some h /\ trustedHost h)
  /\ (forall url,
        URL_hostname host url = None ->
        isAllowedGithubDomain host url = false)
  /\ (forall url h,
        URL_hostname host url = Some h ->
        In h [js "github.com"; js "raw.githubusercontent.com";
              js "user-images.githubusercontent.com"] ->
        isAllowedGithubDomain host url = true)
  /\ (forall url,
        URL_hostname host url = Some (js "evil.com") ->
        isAllowedGithubDomain host url = false)
  /\ isAllowedGithubDomain Sample.host (js "https://github.com/o/r/a.png")
     = true
  /\ isAllowedGithubDomain Sample.host
       (js "https://raw.githubusercontent.com/o/r/main/a.txt") = true
  /\ isAllowedGithubDomain Sample.host
       (js "https://user-images.githubusercontent.com/1/2/3/abc.png") = true
  /\ isAllowedGithubDomain Sample.host
       (js "https://evil.com/github.com/a.png") = false
  /\ isAllowedGithubDomain Sample.host (js "not a url") = false.
Proof.
  split; [intros url; apply allowed_iff|].
  split; [intros url E; unfold isAllowedGithubDomain; now rewrite E|].
  split.
  - intros url h E Hin. unfold isAllowedGithubDomain. rewrite E.
    simpl in Hin. destruct Hin as [<-|[<-|[<-|[]]]]; reflexivity.
  - split.
    + intros url E. unfold isAllowedGithubDomain. now rewrite E.
    + repeat split; reflexivity.
Qed.

Lemma isAllowedGithubDomain_witness :
  isAllowedGithubDomain Sample.host (js "https://evil.com/github.com/a.png")
  = false.
Proof.
  destruct (isAllowedGithubDomain_spec Sample.host) as (_ & _ & _ & H & _).
  apply H. reflexivity.
Defined.

(* ------------------------------------------------------------------ *)
(** ** Extraction *)
(* ------------------------------------------------------------------ *)

Lemma Matches_lit s pat w :
  Matches (lit s ++ pat) w -> exists w', w = s ++ w' /\ Matches pat w'.
Proof.
  revert w. induction s as [|c s IH]; intros w H; simpl in H.
  - now exists w.
  - inversion H as [|? ? w0 Hw| |]; subst.
    apply IH in Hw as (w' & -> & Hw'). now exists w'.
Qed.

Lemma github_in_github_com : occursIn (js "github") (js "github.com").
Proof. now exists [], (js ".com"). Qed.

Lemma github_in_user_images :
  occursIn (js "github") (js "user-images.githubusercontent.com").
Proof. now exists (js "user-images."), (js "usercontent.com"). Qed.

Lemma mentionsGithub_github u :
  mentionsGithub u = true -> occursIn (js "github") u.
Proof.
  unfold mentionsGithub. rewrite orb_true_iff, !includes_spec.
  intros [H|H]; eapply occursIn_trans; try exact H.
  - apply github_in_user_images.
  - apply github_in_github_com.
Qed.

Lemma occursIn_middle w a u b : occursIn w u -> occursIn w (a ++ u ++ b).
Proof. intros H. eapply occursIn_trans; [exact H|now exists a, b]. Qed.

(** Every recognised shape spells [github]. *)
Lemma recognizedShape_github w :
  recognizedShape w -> occursIn (js "github") w.
Proof.
  intros [H|[H|[(m & u & -> & _ & H)|(m & u & -> & _ & _ & H)]]].
  - apply Matches_lit in H as (w' & -> & _).
    now exists (js "https://"), (js ".com/" ++ w').
  - apply Matches_lit in H as (w' & -> & _).
    now exists (js "https://"), (js ".com/user-attachments/files/" ++ w').
  - apply occursIn_middle.
    apply Matches_lit in H as (w' & -> & _).
    now exists (js "https://raw."), (js "usercontent.com/" ++ w').
  - change (33%N :: m ++ u ++ js ")") with ((33%N :: m) ++ u ++ js ")").
    apply occursIn_middle. now apply mentionsGithub_github.
Qed.

(** C4, as the code has it: a text in which no recognised shape occurs
    yields no URL, where the image shape is recognised by its URL text
    containing github.com or user-images.githubusercontent.com anywhere, not
    by its host; a text that nowhere spells [github] yields no URL; and
    every URL returned is an asset, attachment or raw-content URL or such
    an image URL, and occurs in the text. *)
Theorem extractFileUrls_unrecognized :
  (forall text,
     (forall w, occursIn w text -> ~ recognizedShape w) ->
     extractFileUrls text = [])
  /\ (forall text,
        includes (js "github") text = false -> extractFileUrls text = [])
  /\ (forall text u,
        In u (extractFileUrls text) -> recognizedUrl u /\ occursIn u text).
Proof.
  assert (H1 : forall text,
             (forall w, occursIn w text -> ~ recognizedShape w) ->
             extractFileUrls text = []).
  { intros text H. destruct (extractFileUrls text) as [|u us] eqn:E;
      [reflexivity|].
    destruct (extract_shape text u) as (w & Ho & Hs);
      [rewrite E; now left|].
    now apply H in Ho. }
  split; [exact H1|]. split; [|apply extract_sound].
  intros text Hg. apply H1. intros w Ho Hs.
  apply recognizedShape_github in Hs.
  assert (Ht : includes (js "github") text = true).
  { apply includes_spec. eapply occursIn_trans; eassumption. }
  congruence.
Qed.

Lemma extractFileUrls_unrecognized_witness :
  extractFileUrls (js "plain prose, see https://example.com/x.png") = [].
Proof.
  destruct extractFileUrls_unrecognized as (_ & H & _).
  apply H. reflexivity.
Defined.

(** C4 as stated fails: the image of a URL on another host is extracted as
    soon as its path spells github.com. *)
Lemma extractFileUrls_image_other_host :
  extractFileUrls (js "![x](https://evil.com/github.com/a.png)")
  = [js "https://evil.com/github.com/a.png"]
  /\ Sample.hostname (js "https://evil.com/github.com/a.png")
     = Some (js "evil.com")
  /\ isAllowedGithubDomain Sample.host
       (js "https://evil.com/github.com/a.png") = false.
Proof. repeat split; reflexivity. Qed.

(* ------------------------------------------------------------------ *)
(** ** Download *)
(* ------------------------------------------------------------------ *)

Lemma parseInt_empty : parseInt [] = None.
Proof. reflexivity. Qed.

Lemma declaredTooLarge_some r cl size :
  contentLength r = Some cl -> parseInt cl = Some size ->
  (Z.of_N MAX_FILE_SIZE < size)%Z ->
  declaredTooLarge r = Some size.
Proof.
  intros Hcl Hp Hs. unfold declaredTooLarge. rewrite Hcl. unfold truthy.
  destruct cl as [|c cl]; [discriminate Hp|]. cbn [isEmpty]. rewrite Hp.
  apply Z.ltb_lt in Hs. now rewrite Hs.
Qed.

(** Every call of [downloadFile] is one of the runs of [Download]: it
    returns, and only adds events. *)
Lemma downloadFile_run host url token w :
  exists res evs,
    Download host url token res evs /\
    downloadFile host url token w = (Returned res, after_events w evs).
Proof.
  unfold downloadFile, after_events.
  destruct (isAllowedGithubDomain host url) eqn:Hallowed; cbn [negb].
  2:{ exists None, [ConsoleError (MsgUntrustedDomain url)].
      split; [now constructor|reflexivity]. }
  unfold tryCatch, bind, do_fetch, arrayBuffer, bind, emit, console_error,
    emit, ret, throw.
  destruct (network host url token) as [|resp] eqn:Hnet.
  { eexists _, _. split; [now apply Download_rejected|].
    cbn. now rewrite <- app_assoc. }
  destruct (ok resp) eqn:Hok; cbn [negb].
  2:{ eexists _, _. split; [now eapply Download_status; eauto|].
      cbn. now rewrite <- app_assoc. }
  destruct (declaredTooLarge resp) as [size|] eqn:Hdecl.
  { eexists _, _. split; [now eapply Download_declared; eauto|].
    cbn. now rewrite <- app_assoc. }
  destruct (body resp) as [buf|] eqn:Hbody.
  2:{ eexists _, _. split; [now eapply Download_unreadable; eauto|].
      cbn. now rewrite <- !app_assoc. }
  destruct (N.ltb_spec MAX_FILE_SIZE (byteLength buf)) as [Hbig|Hsmall].
  - eexists _, _. split; [now eapply Download_oversize; eauto|].
    cbn. now rewrite <- !app_assoc.
  - eexists _, _. split; [now eapply Download_complete; eauto|].
    cbn. now rewrite <- !app_assoc.
Qed.

(** C5: [downloadFile] always returns, either nothing or the whole body of
    a successful response, of at most 25 MiB, and only adds events.  A
    refused URL costs no request; a status outside 200-299, a failed
    request and a failed read give nothing; a declared length above the
    limit gives nothing without reading the body; a body above the limit
    gives nothing. *)
Theorem downloadFile_spec (host : platform) (url token : jsstring) (w : world) :
  exists res evs,
    downloadFile host url token w = (Returned res, after_events w evs)
    /\ (forall buf, res = Some buf ->
          (byteLength buf <= MAX_FILE_SIZE)%N /\
          isAllowedGithubDomain host url = true /\
          exists resp, network host url token = FetchResolved resp
                       /\ ok resp = true /\ body resp = Some buf)
    /\ (isAllowedGithubDomain host url = false ->
        res = None /\ forall u t, ~ In (Fetch u t) evs)
    /\ (forall resp,
          network host url token = FetchResolved resp -> ok resp = false ->
          res = None)
    /\ (forall resp cl size,
          network host url token = FetchResolved resp ->
          contentLength resp = Some cl -> parseInt cl = Some size ->
          (Z.of_N MAX_FILE_SIZE < size)%Z ->
          res = None /\ forall u, ~ In (ReadBody u) evs)
    /\ (forall resp buf,
          network host url token = FetchResolved resp ->
          body resp = Some buf -> (MAX_FILE_SIZE < byteLength buf)%N ->
          res = None)
    /\ (network host url token = FetchRejected -> res = None)
    /\ (forall resp,
          network host url token = FetchResolved resp -> body resp = None ->
          res = None).
Proof.
  destruct (downloadFile_run host url token w) as (res & evs & D & E).
  exists res, evs. split; [exact E|]. clear E.
  assert (Hdeclared : forall resp cl size,
             network host url token = FetchResolved resp ->
             contentLength resp = Some cl -> parseInt cl = Some size ->
             (Z.of_N MAX_FILE_SIZE < size)%Z ->
             forall resp', network host url token = FetchResolved resp' ->
                           declaredTooLarge resp' = None -> False).
  { intros resp cl size Hn Hcl Hp Hs resp' Hn' Hd.
    rewrite Hn in Hn'. inversion Hn'; subst.
    rewrite (declaredTooLarge_some _ _ _ Hcl Hp Hs) in Hd. discriminate. }
  inversion D; subst;
    (split; [intros b Eb; inversion Eb; subst|]);
    repeat match goal with |- _ /\ _ => split end;
    try reflexivity; try congruence; intros;
    try (match goal with
         | H1 : network _ _ _ = FetchResolved ?a,
           H2 : network _ _ _ = FetchResolved ?b |- _ =>
             rewrite H1 in H2; inversion H2; subst
         end);
    try congruence;
    try (exfalso; eapply Hdeclared; eassumption);
    try (split; [reflexivity|]; cbn; intros; intuition discriminate).
  - now exists resp.
  - exfalso. match goal with
    | H1 : body ?r = Some ?a, H2 : body ?r = Some ?b |- _ =>
        rewrite H1 in H2; inversion H2; subst
    end. lia.
Qed.

Lemma downloadFile_witness :
  exists res evs,
    downloadFile Sample.host (js "https://github.com/o/r/assets/1/a.png")
      (js "t0ken") {| existing := []; trace := [] |}
    = (Returned res, {| existing := []; trace := evs |})
    /\ (forall buf, res = Some buf -> (byteLength buf <= MAX_FILE_SIZE)%N).
Proof.
  destruct (downloadFile_spec Sample.host
              (js "https://github.com/o/r/assets/1/a.png") (js "t0ken")
              {| existing := []; trace := [] |})
    as (res & evs & E & Hbuf & _).
  exists res, evs. split; [exact E|].
  intros buf Hres. now apply Hbuf.
Defined.

(* ------------------------------------------------------------------ *)
(** ** Unique paths *)
(* ------------------------------------------------------------------ *)

Lemma existsSync_In fs p : existsSync fs p = true <-> In p fs.
Proof.
  unfold existsSync. rewrite existsb_exists. split.
  - intros (x & Hx & E). apply streq_eq in E. now subst.
  - intros H. exists p. split; [exact H|apply streq_refl].
Qed.

Lemma candidate_shift dir filename filePath counter i :
  candidate dir filename
    (Path.join dir (numbered filename counter)) (counter + 1) i
  = candidate dir filename filePath counter (S i).
Proof.
  destruct i as [|j]; simpl.
  - now rewrite N.add_0_r.
  - do 2 f_equal. lia.
Qed.

(** Out of fuel: every path tested exists. *)
Lemma loop_none fs dir filename : forall fuel filePath counter,
  ensureUniqueLoop fuel fs dir filename filePath counter = None ->
  forall i, i < fuel ->
    In (candidate dir filename filePath counter i) fs.
Proof.
  induction fuel as [|fuel IH]; intros filePath counter H i Hi; [lia|].
  simpl in H. destruct (existsSync fs filePath) eqn:E; [|discriminate].
  destruct i as [|j]; [now apply existsSync_In|].
  rewrite <- candidate_shift. apply (IH _ _ H). lia.
Qed.

(** A result is the first path tested that does not exist. *)
Lemma loop_some fs dir filename : forall fuel filePath counter p,
  ensureUniqueLoop fuel fs dir filename filePath counter = Some p ->
  exists k,
    p = candidate dir filename filePath counter k /\
    existsSync fs p = false /\
    forall i, i < k ->
      existsSync fs (candidate dir filename filePath counter i) = true.
Proof.
  induction fuel as [|fuel IH]; intros filePath counter p H; [discriminate|].
  simpl in H. destruct (existsSync fs filePath) eqn:E.
  - apply IH in H as (k & Hp & Hfree & Hbusy).
    exists (S k). rewrite <- candidate_shift. split; [exact Hp|].
    split; [exact Hfree|].
    intros [|i] Hi; [exact E|].
    rewrite <- candidate_shift. apply Hbusy. lia.
  - inversion H; subst. exists 0. repeat split; [exact E|]. intros; lia.
Qed.

Lemma NoDup_map_inj {A B} (f : A -> B) l :
  (forall x y, f x = f y -> x = y) -> NoDup l -> NoDup (map f l).
Proof.
  intros Hf. induction 1 as [|x l Hx _ IH]; simpl; constructor; [|exact IH].
  intros C. apply in_map_iff in C as (y & E & Hy).
  apply Hf in E. now subst.
Qed.

Section UniqueIn.

Variables (fs : list jsstring) (dir filename : jsstring).
Hypothesis Hname : cleanName filename.

Lemma numbered_longer k : numbered filename k <> filename.
Proof.
  intros C. apply (f_equal (@length N)) in C.
  rewrite <- (stem_ext filename (cleanName_noslash _ Hname)) in C at 2.
  unfold numbered in C. rewrite !length_app in C. simpl in C. lia.
Qed.

(** The paths the loop tests are pairwise distinct. *)
Lemma candidates_NoDup n :
  NoDup (map (candidate dir filename (Path.join dir filename) 1) (seq 0 n)).
Proof.
  pose proof (cleanName_noslash _ Hname) as noslash.
  apply NoDup_map_inj; [|apply seq_NoDup].
  intros [|i] [|j]; cbn [candidate]; intros E; try reflexivity;
    apply join_clean_inj in E; auto using numbered_clean.
  - symmetry in E. now apply numbered_longer in E.
  - now apply numbered_longer in E.
  - apply numbered_inj in E. f_equal. lia.
Qed.

(** The loop finds a path before its fuel runs out. *)
Lemma ensureUniquePath_total :
  exists p, ensureUniquePath fs dir filename = Some p.
Proof.
  unfold ensureUniquePath.
  destruct (ensureUniqueLoop (S (length fs)) fs dir filename
              (Path.join dir filename) 1) as [p|] eqn:E; [now exists p|].
  exfalso.
  pose proof (loop_none _ _ _ _ _ _ E) as Hall.
  pose proof (candidates_NoDup (S (length fs))) as Hnd.
  apply NoDup_incl_length with (l' := fs) in Hnd.
  - rewrite length_map, length_seq in Hnd. lia.
  - intros p Hp. apply in_map_iff in Hp as (i & <- & Hi).
    apply in_seq in Hi. apply Hall. lia.
Qed.

(** What the resolver returns for a clean name. *)
Lemma ensureUniquePath_result :
  exists p,
    ensureUniquePath fs dir filename = Some p
    /\ existsSync fs p = false
    /\ (exists n, cleanName n /\ p = Path.join dir n)
    /\ (existsSync fs (Path.join dir filename) = false ->
        p = Path.join dir filename)
    /\ (existsSync fs (Path.join dir filename) = true ->
        exists k,
          (1 <= k)%N
          /\ p = Path.join dir (numbered filename k)
          /\ forall j, (1 <= j < k)%N ->
               existsSync fs (Path.join dir (numbered filename j)) = true).
Proof.
  destruct ensureUniquePath_total as [p Hp].
  exists p. split; [exact Hp|].
  unfold ensureUniquePath in Hp.
  apply loop_some in Hp as (k & Ek & Hfree & Hbusy).
  split; [exact Hfree|]. split; [|split].
  - destruct k as [|j]; cbn [candidate] in Ek.
    + now exists filename.
    + exists (numbered filename (1 + N.of_nat j)).
      split; [|exact Ek].
      apply numbered_clean. now apply cleanName_noslash.
  - intros Hf. destruct k as [|j]; [exact Ek|].
    specialize (Hbusy 0 ltac:(lia)). cbn [candidate] in Hbusy. congruence.
  - intros Hb. destruct k as [|j].
    + cbn [candidate] in Ek. congruence.
    + exists (1 + N.of_nat j)%N. split; [lia|]. split; [exact Ek|].
      intros j' Hj'.
      specialize (Hbusy (S (N.to_nat (j' - 1))) ltac:(lia)).
      cbn [candidate] in Hbusy.
      replace (1 + N.of_nat (N.to_nat (j' - 1)))%N with j' in Hbusy by lia.
      exact Hbusy.
Qed.

End UniqueIn.

Lemma ensureUniquePath_child fs dir segs filename p :
  absolutePath dir segs -> segs <> [] -> cleanName filename ->
  ensureUniquePath fs dir filename = Some p -> childOf dir p.
Proof.
  intros Hdir Hsegs Hname Hp.
  destruct (ensureUniquePath_result fs dir filename Hname)
    as (p' & Hp' & _ & (n & Hn & E) & _).
  exists n. split; [exact Hn|].
  rewrite Hp in Hp'. inversion Hp'; subst.
  now apply (join_child dir segs).
Qed.

(** C6: for every target directory and every candidate filename (a clean
    name, as the sanitizer produces), the resolver returns a path of an
    entry of that directory that does not exist on disk: the candidate
    itself when it is free, otherwise the first free name with a counter,
    counting from 1, between stem and extension.  In an absolute directory
    in normal form the path is the directory, a slash and the name.  With
    photo.png present the result is photo_1.png, and photo_2.png when that
    exists too. *)
Theorem ensureUniqueFilename_spec :
  (forall fs dir filename,
     cleanName filename ->
     exists p,
       (forall t,
          ensureUniqueFilename dir filename {| existing := fs; trace := t |}
          = (Returned p, {| existing := fs; trace := t |}))
       /\ existsSync fs p = false
       /\ entryOf dir p
       /\ (forall segs, absolutePath dir segs -> segs <> [] -> childOf dir p)
       /\ (existsSync fs (Path.join dir filename) = false ->
           p = Path.join dir filename)
       /\ (existsSync fs (Path.join dir filename) = true ->
           exists k,
             (1 <= k)%N
             /\ p = Path.join dir (numbered filename k)
             /\ forall j, (1 <= j < k)%N ->
                  existsSync fs (Path.join dir (numbered filename j))
                  = true))
  /\ ensureUniquePath [issue42 ++ js "/photo.png"] issue42 (js "photo.png")
     = Some (issue42 ++ js "/photo_1.png")
  /\ ensureUniquePath
       [issue42 ++ js "/photo.png"; issue42 ++ js "/photo_1.png"]
       issue42 (js "photo.png")
     = Some (issue42 ++ js "/photo_2.png").
Proof.
  split; [|split; reflexivity].
  intros fs dir filename Hname.
  destruct (ensureUniquePath_result fs dir filename Hname)
    as (p & Hp & Hfree & (n & Hn & E) & Hrest).
  exists p. split; [|split; [exact Hfree|split; [|split; [|exact Hrest]]]].
  - intros t. unfold ensureUniqueFilename. cbn [existing]. now rewrite Hp.
  - exists n. split; [exact Hn|]. rewrite E. now apply join_clean.
  - intros segs Hdir Hsegs. exists n. split; [exact Hn|].
    rewrite E. now apply (join_child dir segs).
Qed.

Lemma issue42_absolute :
  absolutePath issue42
    (map js ["home"; "runner"; "work"; "sandbox"; "uploaded_files";
             "issue_42"]%string).
Proof.
  split; [reflexivity|].
  repeat constructor; try discriminate;
    intros C; cbn in C; intuition discriminate.
Qed.

Lemma ensureUniqueFilename_witness :
  exists p,
    ensureUniqueFilename issue42 (js "photo.png")
      {| existing := [issue42 ++ js "/photo.png"]; trace := [] |}
    = (Returned p,
       {| existing := [issue42 ++ js "/photo.png"]; trace := [] |})
    /\ existsSync [issue42 ++ js "/photo.png"] p = false.
Proof.
  destruct ensureUniqueFilename_spec as [H _].
  destruct (H [issue42 ++ js "/photo.png"] issue42 (js "photo.png"))
    as (p & Hp & Hfree & _).
  - repeat split; try discriminate.
    intros C; cbn in C; intuition discriminate.
  - exists p. split; [apply Hp|exact Hfree].
Defined.

(* ------------------------------------------------------------------ *)
(** ** Traces *)
(* ------------------------------------------------------------------ *)

Module TraceFacts.

(** The events of a download write no file. *)
Lemma Download_events host url token res evs :
  Download host url token res evs -> writtenFiles evs = [].
Proof. intros D. inversion D; subst; reflexivity. Qed.

Lemma writtenFiles_app t u :
  writtenFiles (t ++ u) = writtenFiles t ++ writtenFiles u.
Proof.
  induction t as [|e t IH]; [reflexivity|].
  destruct e as [| | | | |p [b|m]| |]; simpl; now rewrite ?IH.
Qed.

Lemma manifests_app t u : manifests (t ++ u) = manifests t ++ manifests u.
Proof.
  induction t as [|e t IH]; [reflexivity|].
  destruct e as [| | | | |p [b|m]| |]; simpl; now rewrite ?IH.
Qed.

End TraceFacts.

Import TraceFacts.

(* ------------------------------------------------------------------ *)
(** ** The orchestrator *)
(* ------------------------------------------------------------------ *)

(** C8: when the issue number is not made of digits only, the run prints
    one error and exits with code 1; nothing else happens: no directory is
    created, no file is written, and the result does not depend on the
    host, whose working directory the path traversal guard would need. *)
Theorem invalid_issue_number_aborts (host : platform) (env : environment)
    (fs : list jsstring) (issueNumber : jsstring) :
  ISSUE_NUMBER env = Some issueNumber ->
  allDigits issueNumber = false ->
  (exists msg,
     run_script host env fs
     = (Exited 1,
        {| existing := fs; trace := [ConsoleError msg; ProcessExit 1] |})
     /\ (msg = MsgInvalidIssueNumber issueNumber
         \/ msg = MsgMissingEnvironment))
  /\ (forall host', run_script host' env fs = run_script host env fs).
Proof.
  intros Hissue Hdigits.
  assert (Hrun : forall h,
             exists msg,
               run_script h env fs
               = (Exited 1,
                  {| existing := fs;
                     trace := [ConsoleError msg; ProcessExit 1] |})
               /\ (msg = MsgInvalidIssueNumber issueNumber
                   \/ msg = MsgMissingEnvironment)
               /\ msg = (match truthy (GITHUB_TOKEN env),
                               truthy (ISSUE_NUMBER env),
                               truthy (COMMENT_ID env),
                               truthy (GITHUB_REPOSITORY env) with
                         | Some _, Some _, Some _, Some _ =>
                             MsgInvalidIssueNumber issueNumber
                         | _, _, _, _ => MsgMissingEnvironment
                         end)).
  { intros h. unfold run_script, script, main. rewrite Hissue.
    destruct (truthy (GITHUB_TOKEN env)) as [token|];
      [|eexists; split; [reflexivity|split; [now right|reflexivity]]].
    destruct (truthy (Some issueNumber)) as [n|] eqn:En;
      [|eexists; split; [reflexivity|split; [now right|reflexivity]]].
    assert (n = issueNumber) as ->.
    { unfold truthy in En. destruct (isEmpty issueNumber); congruence. }
    destruct (truthy (COMMENT_ID env)) as [commentId|];
      [|eexists; split; [reflexivity|split; [now right|reflexivity]]].
    destruct (truthy (GITHUB_REPOSITORY env)) as [repository|];
      [|eexists; split; [reflexivity|split; [now right|reflexivity]]].
    rewrite Hdigits.
    eexists; split; [reflexivity|split; [now left|reflexivity]]. }
  split.
  - destruct (Hrun host) as (msg & E & Hmsg & _). now exists msg.
  - intros host'.
    destruct (Hrun host) as (msg & E & _ & Hm).
    destruct (Hrun host') as (msg' & E' & _ & Hm').
    rewrite E, E'. congruence.
Qed.

Lemma invalid_issue_number_witness :
  exists msg,
    run_script Sample.host
      {| GITHUB_TOKEN := Some (js "t0ken");
         ISSUE_NUMBER := Some (js "42/../../etc");
         COMMENT_BODY := Some Sample.imageComment;
         COMMENT_ID := Some (js "1001");
         GITHUB_REPOSITORY := Some (js "codenote-net/sandbox");
         GITHUB_OUTPUT := Some (js "/tmp/out") |} []
    = (Exited 1,
       {| existing := []; trace := [ConsoleError msg; ProcessExit 1] |}).
Proof.
  destruct (invalid_issue_number_aborts Sample.host
              {| GITHUB_TOKEN := Some (js "t0ken");
                 ISSUE_NUMBER := Some (js "42/../../etc");
                 COMMENT_BODY := Some Sample.imageComment;
                 COMMENT_ID := Some (js "1001");
                 GITHUB_REPOSITORY := Some (js "codenote-net/sandbox");
                 GITHUB_OUTPUT := Some (js "/tmp/out") |}
              [] (js "42/../../etc") eq_refl eq_refl)
    as [(msg & E & _) _].
  now exists msg.
Defined.

Lemma loopEvent_download host url token res evs targetDir :
  Download host url token res evs -> Forall (loopEvent targetDir) evs.
Proof. intros D. inversion D; subst; repeat constructor. Qed.

(** The loop over the URLs returns the paths it wrote, unless a search for
    a free name gives up; it only adds events of the loop. *)
Lemma processUrls_run host targetDir token : forall urls acc w,
  exists evs fs' r,
    processUrls host targetDir token urls acc w
    = (r, {| existing := fs'; trace := trace w ++ evs |})
    /\ Forall (loopEvent targetDir) evs
    /\ (r = Returned (acc ++ writtenFiles evs) \/ r = Thrown LoopBudget).
Proof.
  induction urls as [|url rest IH]; intros acc w.
  - exists [], (existing w), (Returned acc).
    rewrite !app_nil_r. destruct w. repeat split; [constructor|now left].
  - cbn [processUrls]. unfold bind at 1. cbn [console_log emit].
    unfold bind at 1.
    destruct (downloadFile_run host url token
                {| existing := existing w;
                   trace := trace w ++ [ConsoleLog (MsgProcessing url)] |})
      as (res & evsD & D & ->).
    pose proof (loopEvent_download _ _ _ _ _ targetDir D) as HD.
    pose proof (Download_events _ _ _ _ _ D) as HwD.
    unfold after_events. cbn [existing trace].
    destruct res as [buf|].
    + unfold bind at 1. unfold ensureUniqueFilename. cbn [existing trace].
      destruct (ensureUniquePath (existing w) targetDir
                  (getFilenameFromUrl url)) as [p|] eqn:Ep.
      * unfold bind at 1. unfold fs_writeFile, bind at 1, emit, create.
        cbn [existing trace fst snd]. unfold bind at 1.
        cbn [console_log emit existing trace].
        match goal with
        | |- context [processUrls _ _ _ rest _ ?w0] =>
            destruct (IH (acc ++ [p]) w0) as (evs & fs' & r & E & He & Hr)
        end.
        rewrite E. cbn [trace].
        exists ([ConsoleLog (MsgProcessing url)] ++ evsD
                  ++ [WriteFile p (Bytes buf); ConsoleLog (MsgSaved p)]
                  ++ evs), fs', r.
        split; [|split].
        -- f_equal. f_equal. now rewrite <- !app_assoc.
        -- constructor; [exact I|]. apply Forall_app. split; [exact HD|].
           constructor; [now exists url, (existing w)|].
           constructor; [exact I|exact He].
        -- destruct Hr as [->| ->]; [left|now right].
           cbn [app writtenFiles]. rewrite writtenFiles_app, HwD.
           cbn [app writtenFiles]. now rewrite <- app_assoc.
      * exists ([ConsoleLog (MsgProcessing url)] ++ evsD), (existing w),
          (Thrown LoopBudget).
        split; [|split].
        -- f_equal. f_equal. now rewrite <- !app_assoc.
        -- constructor; [exact I|exact HD].
        -- now right.
    + match goal with
      | |- context [processUrls _ _ _ rest _ ?w0] =>
          destruct (IH acc w0) as (evs & fs' & r & E & He & Hr)
      end.
      rewrite E. cbn [trace].
      exists ([ConsoleLog (MsgProcessing url)] ++ evsD ++ evs), fs', r.
      split; [|split].
      * f_equal. f_equal. now rewrite <- !app_assoc.
      * constructor; [exact I|]. apply Forall_app. now split.
      * destruct Hr as [->| ->]; [left|now right].
        cbn [app writtenFiles]. now rewrite writtenFiles_app, HwD.
Qed.

Lemma loopEvent_manifests targetDir evs :
  Forall (loopEvent targetDir) evs -> manifests evs = [].
Proof.
  induction 1 as [|e evs He _ IH]; [reflexivity|].
  destruct e as [| | | | |p [b|m]| |]; simpl in *; tauto.
Qed.

Lemma loopEvent_ingest targetDir evs :
  Forall (loopEvent targetDir) evs -> Forall (ingestEvent targetDir) evs.
Proof. apply Forall_impl. intros e He. now left. Qed.

Ltac ingest_events :=
  repeat first
    [ apply Forall_nil
    | assumption
    | apply Forall_app; split
    | apply Forall_cons;
      [ first [ now (left; exact I)
              | now (right; left)
              | now (right; right; left; eauto)
              | now (right; right; right; eauto) ]
      | ] ].

(** What [main] does from the creation of the target directory on. *)
Lemma ingest_run host env token issueNumber commentId commentBody targetDir w :
  exists evs fs' r,
    ingest host env token issueNumber commentId commentBody targetDir w
    = (r, {| existing := fs'; trace := trace w ++ evs |})
    /\ Forall (ingestEvent targetDir) evs
    /\ (forall c, r <> Exited c)
    /\ (truthy (GITHUB_OUTPUT env) = None -> r <> Returned tt)
    /\ (manifests evs <> [] <-> r = Returned tt /\ writtenFiles evs <> [])
    /\ (manifests evs <> [] ->
        manifests evs
        = [(Path.join targetDir (js "metadata.json"),
            {| issue_number := issueNumber;
               comment_id := commentId;
               files := writtenFiles evs;
               timestamp := now host |})]).
Proof.
  unfold ingest. remember (extractFileUrls commentBody) as urls.
  unfold bind at 1. unfold fs_mkdir, bind at 1, emit, create.
  cbn [fst snd existing trace].
  destruct (length urls =? 0)%nat.
  - unfold bind at 1. cbn [console_log emit existing trace].
    unfold setOutput.
    destruct (truthy (GITHUB_OUTPUT env)) as [outputPath|] eqn:Eout.
    + unfold fs_appendFile, bind, emit, create. cbn [existing trace].
      eexists [Mkdir targetDir; ConsoleLog MsgNoUrls; AppendFile _ _], _, _.
      split; [rewrite <- !app_assoc; reflexivity|].
      split; [ingest_events|].
      cbn. repeat split; try discriminate; try tauto; intros []; tauto.
    + unfold throw.
      eexists [Mkdir targetDir; ConsoleLog MsgNoUrls], _, _.
      split; [rewrite <- !app_assoc; reflexivity|].
      split; [ingest_events|].
      cbn. repeat split; try discriminate; try tauto; intros []; tauto.
  - unfold bind at 1. cbn [console_log emit existing trace].
    unfold bind at 1.
    match goal with
    | |- context [processUrls _ _ _ urls [] ?w0] =>
        destruct (processUrls_run host targetDir token urls [] w0)
          as (evs & fs' & r & E & He & Hr)
    end.
    rewrite E. cbn [trace app] in *.
    pose proof (loopEvent_manifests _ _ He) as Hm.
    pose proof (loopEvent_ingest _ _ He) as Hi.
    destruct Hr as [->| ->].
    2:{ eexists ([Mkdir targetDir; ConsoleLog (MsgFound (length urls))]
                   ++ evs), _, _.
        split; [rewrite <- !app_assoc; reflexivity|].
        split; [ingest_events|].
        cbn [app manifests]. rewrite Hm.
        repeat split; try discriminate; try tauto; intros []; discriminate. }
    destruct (0 <? length (writtenFiles evs))%nat eqn:Elen.
    + assert (Hne : writtenFiles evs <> []).
      { apply Nat.ltb_lt in Elen. destruct (writtenFiles evs);
          [simpl in Elen; lia|discriminate]. }
      unfold setOutput.
      destruct (truthy (GITHUB_OUTPUT env)) as [outputPath|] eqn:Eout.
      * unfold fs_appendFile, fs_writeFile, console_log, bind, emit, create.
        cbn [existing trace fst snd].
        eexists ([Mkdir targetDir; ConsoleLog (MsgFound (length urls))]
                   ++ evs
                   ++ [AppendFile _ _; AppendFile _ _; WriteFile _ (Json _);
                       ConsoleLog _]), _, _.
        split; [rewrite <- !app_assoc; reflexivity|].
        split; [ingest_events|].
        cbn [app manifests writtenFiles].
        rewrite manifests_app, writtenFiles_app, Hm.
        cbn [app manifests writtenFiles]. rewrite app_nil_r.
        repeat split; try discriminate; try tauto.
      * unfold throw, bind.
        eexists ([Mkdir targetDir; ConsoleLog (MsgFound (length urls))]
                   ++ evs), _, _.
        split; [rewrite <- !app_assoc; reflexivity|].
        split; [ingest_events|].
        cbn [app manifests]. rewrite Hm.
        repeat split; try discriminate; try tauto; intros []; discriminate.
    + assert (He0 : writtenFiles evs = []).
      { apply Nat.ltb_ge in Elen. destruct (writtenFiles evs);
          [reflexivity|simpl in Elen; lia]. }
      unfold setOutput.
      destruct (truthy (GITHUB_OUTPUT env)) as [outputPath|] eqn:Eout.
      * unfold fs_appendFile, console_log, bind, emit, create.
        cbn [existing trace fst snd].
        eexists ([Mkdir targetDir; ConsoleLog (MsgFound (length urls))]
                   ++ evs ++ [AppendFile _ _; ConsoleLog _]), _, _.
        split; [rewrite <- !app_assoc; reflexivity|].
        split; [ingest_events|].
        cbn [app manifests writtenFiles].
        rewrite manifests_app, writtenFiles_app, Hm, He0.
        cbn. repeat split; try discriminate; try tauto; intros []; tauto.
      * unfold throw, bind.
        eexists ([Mkdir targetDir; ConsoleLog (MsgFound (length urls))]
                   ++ evs), _, _.
        split; [rewrite <- !app_assoc; reflexivity|].
        split; [ingest_events|].
        cbn [app manifests]. rewrite Hm.
        repeat split; try discriminate; try tauto; intros []; discriminate.
Qed.

Ltac script_events :=
  repeat first
    [ apply Forall_nil
    | apply Forall_cons; [ first [ now (left; eauto) | now (right; left) ] | ] ].

(** What a whole run does. *)
Lemma script_run host env fs :
  exists evs fs' r,
    run_script host env fs = (r, {| existing := fs'; trace := evs |})
    /\ Forall (scriptEvent host env) evs
    /\ (r = Returned tt \/ r = Exited 1)
    /\ (truthy (GITHUB_OUTPUT env) = None -> r = Exited 1)
    /\ (manifests evs <> [] <-> r = Returned tt /\ writtenFiles evs <> [])
    /\ (manifests evs <> [] ->
        exists p m, manifests evs = [(p, m)] /\ files m = writtenFiles evs).
Proof.
  unfold run_script, script, tryCatch, main.
  destruct (truthy (GITHUB_TOKEN env)) as [token|];
    [|eexists _, _, _; split; [reflexivity|]; split; [script_events|];
      cbn; repeat split; try tauto; try discriminate; intros []; tauto].
  destruct (truthy (ISSUE_NUMBER env)) as [issueNumber|] eqn:Eissue;
    [|eexists _, _, _; split; [reflexivity|]; split; [script_events|];
      cbn; repeat split; try tauto; try discriminate; intros []; tauto].
  destruct (truthy (COMMENT_ID env)) as [commentId|];
    [|eexists _, _, _; split; [reflexivity|]; split; [script_events|];
      cbn; repeat split; try tauto; try discriminate; intros []; tauto].
  destruct (truthy (GITHUB_REPOSITORY env)) as [repository|];
    [|eexists _, _, _; split; [reflexivity|]; split; [script_events|];
      cbn; repeat split; try tauto; try discriminate; intros []; tauto].
  destruct (allDigits issueNumber) eqn:Edigits; cbn [negb];
    [|eexists _, _, _; split; [reflexivity|]; split; [script_events|];
      cbn; repeat split; try tauto; try discriminate; intros []; tauto].
  unfold bind at 1. cbn [ret]. unfold guarded.
  destruct (traversalDetected host _ _);
    [eexists _, _, _; split; [reflexivity|]; split; [script_events|];
     cbn; repeat split; try tauto; try discriminate; intros []; tauto|].
  unfold bind at 1. cbn [ret].
  match goal with
  | |- context [ingest host env ?t ?i ?c ?b ?d ?w0] =>
      destruct (ingest_run host env t i c b d w0)
        as (evs & fs' & r & E & He & Hexit & Hout & Hiff & Hman)
  end.
  rewrite E. cbn [trace app] in *.
  assert (Hev : Forall (scriptEvent host env) evs).
  { eapply Forall_impl; [|exact He]. intros e H. right; right.
    now exists issueNumber. }
  destruct r as [[]|e|c]; [| |now destruct (Hexit c)].
  - exists evs, fs', (Returned tt).
    split; [reflexivity|]. split; [exact Hev|].
    split; [now left|]. split; [intros H; now apply Hout in H|].
    split; [exact Hiff|]. intros H. apply Hman in H. eauto.
  - unfold bind, console_error, emit, process_exit. cbn [existing trace].
    exists (evs ++ [ConsoleError (MsgFatal e); ProcessExit 1]), fs',
      (Exited 1).
    split; [now rewrite <- app_assoc|].
    split; [apply Forall_app; split; [exact Hev|script_events]|].
    split; [now right|]. split; [reflexivity|].
    rewrite manifests_app, writtenFiles_app. cbn [manifests writtenFiles].
    rewrite !app_nil_r.
    split; [split; [intros H; apply Hiff in H as [H _]; discriminate
                   |intros [H _]; discriminate]|].
    intros H. apply Hiff in H as [H _]. discriminate.
Qed.

(** C10: when GITHUB_OUTPUT is not set, every run ends with exit code 1.
    A run with all five inputs present and a comment without URLs creates
    the target directory, finds nothing, fails to report it and exits
    with 1. *)
Theorem output_unset_fails (host : platform) (env : environment)
    (fs : list jsstring) :
  GITHUB_OUTPUT env = None ->
  fst (run_script host env fs) = Exited 1
  /\ exitCode (fst (run_script host env fs)) = 1%N
  /\ run_script Sample.host (Sample.env (js "thanks, no files here") None) []
     = (Exited 1,
        {| existing := [issue42];
           trace := [Mkdir issue42; ConsoleLog MsgNoUrls;
                     ConsoleError (MsgFatal OutputNotSet);
                     ProcessExit 1] |}).
Proof.
  intros Hout.
  destruct (script_run host env fs) as (evs & fs' & r & E & _ & _ & H & _).
  rewrite E. cbn [fst].
  assert (Hr : r = Exited 1) by (apply H; now rewrite Hout).
  subst r. repeat split; reflexivity.
Qed.

Lemma output_unset_witness :
  exitCode
    (fst (run_script Sample.host (Sample.env Sample.imageComment None) []))
  = 1%N.
Proof.
  apply (output_unset_fails Sample.host
           (Sample.env Sample.imageComment None) []).
  reflexivity.
Defined.

(** C7: the metadata file is written exactly when the run completes
    without a fatal error and has written at least one downloaded file;
    never when no file was written; and when it is written, it is written
    once and lists the paths of the downloaded files in the order they
    were written. *)
Theorem manifest_written_iff (host : platform) (env : environment)
    (fs : list jsstring) :
  let r := run_script host env fs in
  let t := trace (snd r) in
  (manifests t <> [] <-> fst r = Returned tt /\ writtenFiles t <> [])
  /\ (writtenFiles t = [] -> manifests t = [])
  /\ (forall p m,
        In (p, m) (manifests t) ->
        manifests t = [(p, m)] /\ files m = writtenFiles t).
Proof.
  cbv zeta.
  destruct (script_run host env fs)
    as (evs & fs' & r & E & _ & _ & _ & Hiff & Hman).
  rewrite E. cbn [fst snd trace].
  split; [exact Hiff|]. split.
  - intros Hw. destruct (manifests evs) as [|x l] eqn:Em; [reflexivity|].
    assert (Hne : x :: l <> []) by discriminate.
    apply Hiff in Hne as [_ Hne]. contradiction.
  - intros p m Hin.
    assert (Hne : manifests evs <> [])
      by (intros C; rewrite C in Hin; contradiction).
    destruct (Hman Hne) as (p' & m' & Em & Hf).
    rewrite Em in Hin. destruct Hin as [Hin|[]].
    inversion Hin; subst. now split.
Qed.

Lemma manifest_written_witness :
  manifests
    (trace (snd (run_script Sample.host
                   (Sample.env (js "thanks, no files here")
                      (Some (js "/tmp/out"))) [])))
  = [].
Proof.
  destruct (manifest_written_iff Sample.host
              (Sample.env (js "thanks, no files here")
                 (Some (js "/tmp/out"))) [])
    as (_ & H & _).
  apply H. reflexivity.
Defined.

Example manifest_end_to_end :
  let r := run_script Sample.host
             (Sample.env Sample.imageComment (Some (js "/tmp/out"))) [] in
  fst r = Returned tt
  /\ writtenFiles (trace (snd r)) = [issue42 ++ js "/abc.png"]
  /\ manifests (trace (snd r))
     = [(issue42 ++ js "/metadata.json",
         {| issue_number := js "42";
            comment_id := js "1001";
            files := [issue42 ++ js "/abc.png"];
            timestamp := js "2024-01-01T00:00:00.000Z" |})].
Proof. vm_compute. repeat split; reflexivity. Qed.

Lemma issue_name_clean issueNumber :
  allDigits issueNumber = true -> cleanName (js "issue_" ++ issueNumber).
Proof.
  intros H. unfold allDigits in H. apply andb_true_iff in H as [_ H].
  rewrite forallb_forall in H.
  repeat split; try discriminate.
  intros C. cbn in C.
  repeat (destruct C as [C|C]; [discriminate C|]).
  apply H in C. discriminate C.
Qed.

(** C1: in a run from an absolute working directory, every path written
    with [writeFile], for a downloaded file or for the metadata, lies
    strictly inside the base directory; the guard ends the run with exit
    code 1, before the directory is created, whenever the resolved target
    is not the base directory or below it; and the filename derived from a
    URL is one clean path segment: not empty, without separator, not [.]
    or [..]. *)
Theorem written_paths_inside (host : platform) (env : environment)
    (fs : list jsstring) :
  Path.isAbsolute (cwd host) = true ->
  (forall p c,
     In (WriteFile p c) (trace (snd (run_script host env fs))) ->
     strictlyInside (baseDirOf host) p)
  /\ (forall token issueNumber commentId commentBody baseDir targetDir w,
        ~ within (cwd host) baseDir targetDir ->
        guarded host env token issueNumber commentId commentBody
          baseDir targetDir w
        = (Exited 1,
           after_events w [ConsoleError MsgPathTraversal; ProcessExit 1]))
  /\ (forall url, cleanName (getFilenameFromUrl url)).
Proof.
  intros Hcwd. split; [|split].
  - intros p c Hin.
    destruct (script_run host env fs) as (evs & fs' & r & E & Hev & _).
    rewrite E in Hin. cbn [snd trace] in Hin.
    rewrite Forall_forall in Hev. apply Hev in Hin.
    destruct Hin as [[m Hm]|[Hx|(issueNumber & _ & Hdigits & Hin)]];
      try discriminate.
    destruct (resolve_uploaded (cwd host) Hcwd) as [segs Hbase].
    fold (baseDirOf host) in Hbase.
    pose proof (issue_name_clean issueNumber Hdigits) as Hissue.
    destruct (join_child (baseDirOf host) _ (js "issue_" ++ issueNumber)
                Hbase ltac:(now destruct segs) Hissue) as [Htd Habs].
    fold (targetDirOf host issueNumber) in Htd. rewrite <- Htd in Habs.
    assert (Hchild : childOf (targetDirOf host issueNumber) p).
    { destruct Hin as [Hl|[Hm|[(q & d & Ha)|(m & Hj)]]]; try discriminate.
      - destruct c as [b|m]; cbn in Hl; try contradiction.
        destruct Hl as (url & fs0 & Hp).
        eapply ensureUniquePath_child;
          [exact Habs|now destruct segs|apply sanitize_clean|exact Hp].
      - inversion Hj; subst.
        assert (Hmeta : cleanName (js "metadata.json")).
        { repeat split; try discriminate.
          intros C; cbn in C; intuition discriminate. }
        exists (js "metadata.json"). split; [exact Hmeta|].
        eapply join_child; [exact Habs|now destruct segs|exact Hmeta]. }
    destruct Hchild as (n & Hn & ->).
    exists [js "issue_" ++ issueNumber; n].
    split; [discriminate|].
    split; [constructor; [exact Hissue|constructor; [exact Hn|constructor]]|].
    rewrite Htd. cbn [joinWith]. now rewrite <- !app_assoc.
  - intros token issueNumber commentId commentBody baseDir targetDir w Hout.
    unfold guarded.
    rewrite (traversal_detected host baseDir targetDir Hcwd Hout).
    unfold bind, console_error, emit, process_exit, after_events.
    cbn [existing trace]. now rewrite <- app_assoc.
  - intros url. apply sanitize_clean.
Qed.

Lemma written_paths_witness :
  (forall p c,
     In (WriteFile p c)
       (trace (snd (run_script Sample.host
                      (Sample.env Sample.imageComment (Some (js "/tmp/out")))
                      []))) ->
     strictlyInside (baseDirOf Sample.host) p)
  /\ guarded Sample.host
       (Sample.env Sample.imageComment (Some (js "/tmp/out")))
       (js "t0ken") (js "42") (js "1001") Sample.imageComment
       (js "/home/runner/work/sandbox/uploaded_files")
       (js "/home/runner/work/sandbox/uploaded_files/issue_/../../etc")
       {| existing := []; trace := [] |}
     = (Exited 1,
        {| existing := [];
           trace := [ConsoleError MsgPathTraversal; ProcessExit 1] |}).
Proof.
  destruct (written_paths_inside Sample.host
              (Sample.env Sample.imageComment (Some (js "/tmp/out"))) []
              eq_refl)
    as (Hwrites & Hguard & _).
  split; [exact Hwrites|].
  apply Hguard. intros [rest C]. vm_compute in C. discriminate C.
Defined.

(* ------------------------------------------------------------------ *)
(** ** The filename of a URL *)
(* ------------------------------------------------------------------ *)

Lemma lastSegment_last url seg :
  lastSegmentOf url seg -> last (split Path.slash url) [] = seg.
Proof.
  intros [Hs [->|[pre ->]]].
  - now rewrite split_nosep.
  - now apply last_split_app.
Qed.

(** C9, as the code has it: the filename is a function of the last path
    segment of the URL alone.  When that segment is not empty the result
    is the segment, with [.bin] appended when it has no dot, sanitized, as
    the specification words it; when it is empty (the URL is empty or ends
    with a slash) the placeholder [file] stands for it and the result is
    [file.bin]. *)
Theorem getFilenameFromUrl_last_segment :
  (forall url seg,
     lastSegmentOf url seg -> seg <> [] ->
     getFilenameFromUrl url
     = sanitizeFilename
         (if includes [Path.dot] seg then seg else seg ++ js ".bin")
     /\ getFilenameFromUrl url = specFilenameFromUrl url)
  /\ (forall url,
        lastSegmentOf url [] -> getFilenameFromUrl url = js "file.bin")
  /\ (forall url url' seg,
        lastSegmentOf url seg -> lastSegmentOf url' seg ->
        getFilenameFromUrl url = getFilenameFromUrl url').
Proof.
  split; [|split].
  - intros url seg Hseg Hne.
    unfold getFilenameFromUrl, specFilenameFromUrl, lastSegmentOrFile.
    rewrite (lastSegment_last _ _ Hseg).
    apply isEmpty_false in Hne. rewrite Hne.
    destruct (includes [Path.dot] seg); split; reflexivity.
  - intros url Hseg. unfold getFilenameFromUrl, lastSegmentOrFile.
    now rewrite (lastSegment_last _ _ Hseg).
  - intros url url' seg Hseg Hseg'.
    unfold getFilenameFromUrl, lastSegmentOrFile.
    now rewrite (lastSegment_last _ _ Hseg), (lastSegment_last _ _ Hseg').
Qed.

Lemma getFilenameFromUrl_witness :
  getFilenameFromUrl (js "https://github.com/o/r/assets/1/photo")
  = sanitizeFilename (js "photo.bin").
Proof.
  destruct getFilenameFromUrl_last_segment as [H _].
  destruct (H (js "https://github.com/o/r/assets/1/photo") (js "photo"))
    as [E _].
  - split; [intros C; cbn in C; intuition discriminate|].
    right. now exists (js "https://github.com/o/r/assets/1").
  - discriminate.
  - exact E.
Defined.

(** C9 as stated fails on a URL that ends with a slash: the code names the
    file [file.bin], the wording of the specification gives [bin]. *)
Lemma getFilenameFromUrl_trailing_slash :
  getFilenameFromUrl (js "https://github.com/a/") = js "file.bin"
  /\ specFilenameFromUrl (js "https://github.com/a/") = js "bin"
  /\ getFilenameFromUrl (js "https://github.com/a/")
     <> specFilenameFromUrl (js "https://github.com/a/").
Proof. repeat split; try reflexivity. discriminate. Qed.

(* ------------------------------------------------------------------ *)
(** ** The sanitizer on a long extension *)
(* ------------------------------------------------------------------ *)

(** C3: the code at an input whose extension alone is longer than the
    limit.  The stem is cut to nothing, the extension is kept whole, and
    the output is longer than 200 characters; with an extension of exactly
    200 characters the reserved stem CON and its underscore are cut
    away. *)
Theorem sanitizeFilename_long_extension :
  sanitizeFilename (js "report." ++ repeat 120%N 201)
  = 46%N :: repeat 120%N 201
  /\ length (sanitizeFilename (js "report." ++ repeat 120%N 201)) = 202
  /\ sanitizeFilename (js "CON." ++ repeat 120%N 200)
     = 46%N :: repeat 120%N 200.
Proof. vm_compute. repeat split; reflexivity. Qed.

(* ------------------------------------------------------------------ *)
(** ** More on extraction: no duplicates, nothing missed *)
(* ------------------------------------------------------------------ *)

Module ExtractFacts.

Lemma existsb_streq_In u set : existsb (streq u) set = true <-> In u set.
Proof.
  rewrite existsb_exists. split.
  - intros (x & Hx & E). apply streq_eq in E. now subst.
  - intros H. exists u. split; [exact H|apply streq_refl].
Qed.

Lemma setAdd_NoDup set u : NoDup set -> NoDup (setAdd set u).
Proof.
  intros H. unfold setAdd. destruct (existsb (streq u) set) eqn:E; [exact H|].
  apply NoDup_app; [exact H|repeat constructor; intros []|].
  intros x Hx [<-|[]].
  apply existsb_streq_In in Hx. congruence.
Qed.

Lemma addAll_NoDup urls : forall set, NoDup set -> NoDup (addAll set urls).
Proof.
  unfold addAll. induction urls as [|u urls IH]; intros set H; [exact H|].
  simpl. apply IH. now apply setAdd_NoDup.
Qed.





(** ** The matcher finds a match wherever the pattern has one *)









End ExtractFacts.

Import ExtractFacts.

(** X1: the result of [extractFileUrls] holds no URL twice, however often
    the comment mentions it. *)
Theorem extractFileUrls_NoDup (text : jsstring) : NoDup (extractFileUrls text).
Proof.
  unfold extractFileUrls. repeat apply addAll_NoDup. constructor.
Qed.




(* ------------------------------------------------------------------ *)
(** ** More on the sanitizer *)
(* ------------------------------------------------------------------ *)

Module SanitizeMore.

Lemma replaceInvalid_length f : length (replaceInvalid f) = length f.
Proof. apply length_map. Qed.

Lemma trim_length s : length (trimDotsSpaces s) <= length s.
Proof.
  destruct (trim_split s) as (a & b & E).
  rewrite E at 2. rewrite !length_app. lia.
Qed.

Lemma replaceInvalid_dot f : In Path.dot (replaceInvalid f) -> In Path.dot f.
Proof.
  unfold replaceInvalid. intros H. apply in_map_iff in H as (x & E & Hx).
  destruct (isInvalidChar x); [discriminate E|now subst].
Qed.

(** The trimmed text does not end with a dot or a space. *)
Lemma trim_last s r c : trimDotsSpaces s = r ++ [c] -> isSpaceOrDot c = false.
Proof.
  unfold trimDotsSpaces, dropWhileEnd. intros E.
  apply (f_equal (@rev N)) in E.
  rewrite rev_involutive, rev_app_distr in E. simpl in E.
  exact (dropWhile_head _ _ _ _ E).
Qed.

(** The name before the length limit. *)
Lemma sanitize_steps f :
  let t := trimDotsSpaces (replaceInvalid f) in
  let p := if isReserved (stemUpper t) then underscore :: t else t in
  sanitizeFilename f = (if isEmpty (limitLength p) then js "file"
                        else limitLength p).
Proof. reflexivity. Qed.

Lemma isReserved_underscore x : isReserved (underscore :: x) = false.
Proof. reflexivity. Qed.

Lemma stemUpper_underscore t :
  stemUpper (underscore :: t) = underscore :: stemUpper t.
Proof.
  unfold stemUpper. simpl. now destruct (splitParts Path.dot t).
Qed.

Lemma extname_nodot p : ~ In Path.dot p -> ~ In Path.slash p ->
  Path.extname p = [].
Proof.
  intros Hd Hs. destruct (extname_cases p Hs) as [E|(pre & post & _ & E & _)];
    [exact E|].
  exfalso. apply Hd. rewrite E. apply in_or_app. right. now left.
Qed.

End SanitizeMore.

Import SanitizeMore.

(** X3: whatever the input, the sanitized name is not empty and holds none
    of the characters the first replacement removes. *)
Theorem sanitizeFilename_chars (f : jsstring) :
  sanitizeFilename f <> []
  /\ forall c, In c (sanitizeFilename f) -> isInvalidChar c = false.
Proof. split; [apply sanitize_nonempty|apply sanitize_valid]. Qed.

(** X4: the sanitized name has at most 200 characters when the input has
    at most 199, and also when the input has no dot at all, however long
    it is. *)
Theorem sanitizeFilename_length (f : jsstring) :
  length f <= 199 \/ ~ In Path.dot f ->
  length (sanitizeFilename f) <= MAX_FILENAME_LENGTH.
Proof.
  intros H. rewrite sanitize_steps. cbv zeta.
  set (t := trimDotsSpaces (replaceInvalid f)).
  set (p := if isReserved (stemUpper t) then underscore :: t else t).
  assert (Hlen : length (limitLength p) <= MAX_FILENAME_LENGTH).
  { assert (Hvalid : forall c, In c p -> isInvalidChar c = false).
    { intros c Hc.
      assert (Ht : forall x, In x t -> isInvalidChar x = false).
      { intros x Hx. apply trim_In in Hx. unfold replaceInvalid in Hx.
        apply in_map_iff in Hx as (y & <- & _).
        destruct (isInvalidChar y) eqn:E; [reflexivity|exact E]. }
      subst p. destruct (isReserved (stemUpper t)); [|now apply Ht].
      destruct Hc as [<-|Hc]; [reflexivity|now apply Ht]. }
    destruct H as [H|H].
    - rewrite limitLength_short; unfold MAX_FILENAME_LENGTH.
      + pose proof (trim_length (replaceInvalid f)) as Ht.
        rewrite replaceInvalid_length in Ht. fold t in Ht.
        subst p. destruct (isReserved (stemUpper t)); simpl; lia.
      + pose proof (trim_length (replaceInvalid f)) as Ht.
        rewrite replaceInvalid_length in Ht. fold t in Ht.
        subst p. destruct (isReserved (stemUpper t)); simpl; lia.
    - apply limitLength_bound; [now apply invalid_slash|].
      rewrite extname_nodot; [simpl; lia| |now apply invalid_slash].
      intros Hd. apply H. apply replaceInvalid_dot, trim_In.
      subst p. destruct (isReserved (stemUpper t)); [|exact Hd].
      destruct Hd as [Hd|Hd]; [discriminate Hd|exact Hd]. }
  destruct (isEmpty (limitLength p)); [simpl; unfold MAX_FILENAME_LENGTH; lia|].
  exact Hlen.
Qed.

Lemma sanitizeFilename_length_witness :
  length (sanitizeFilename (repeat 97%N 500)) <= MAX_FILENAME_LENGTH.
Proof.
  apply sanitizeFilename_length. right.
  intros C. apply repeat_spec in C. discriminate C.
Defined.

(** X5: for an input of at most 199 characters the stem of the sanitized
    name, in upper case, is none of the reserved device names. *)
Theorem sanitizeFilename_not_reserved (f : jsstring) :
  length f <= 199 ->
  isReserved (stemUpper (sanitizeFilename f)) = false.
Proof.
  intros H. rewrite sanitize_steps. cbv zeta.
  set (t := trimDotsSpaces (replaceInvalid f)).
  pose proof (trim_length (replaceInvalid f)) as Ht.
  rewrite replaceInvalid_length in Ht. fold t in Ht.
  destruct (isReserved (stemUpper t)) eqn:E.
  - rewrite limitLength_short by (simpl; unfold MAX_FILENAME_LENGTH; lia).
    cbn [isEmpty]. rewrite stemUpper_underscore. apply isReserved_underscore.
  - rewrite limitLength_short by (unfold MAX_FILENAME_LENGTH; lia).
    destruct (isEmpty t) eqn:Et; [reflexivity|exact E].
Qed.

Lemma sanitizeFilename_not_reserved_witness :
  isReserved (stemUpper (sanitizeFilename (js "  aux.tar.gz"))) = false.
Proof. apply sanitizeFilename_not_reserved. simpl. lia. Defined.

(** X6: for an input of at most 199 characters the sanitized name neither
    starts nor ends with a dot or a white space character. *)
Theorem sanitizeFilename_trimmed (f : jsstring) :
  length f <= 199 ->
  (forall c r, sanitizeFilename f = c :: r -> isSpaceOrDot c = false)
  /\ (forall r c, sanitizeFilename f = r ++ [c] -> isSpaceOrDot c = false).
Proof.
  intros H. rewrite sanitize_steps. cbv zeta.
  set (t := trimDotsSpaces (replaceInvalid f)).
  pose proof (trim_length (replaceInvalid f)) as Ht.
  rewrite replaceInvalid_length in Ht. fold t in Ht.
  assert (Hhead : forall c r, t = c :: r -> isSpaceOrDot c = false)
    by (intros c r E; exact (trim_head _ _ _ E)).
  assert (Hlast : forall r c, t = r ++ [c] -> isSpaceOrDot c = false)
    by (intros r c E; exact (trim_last _ _ _ E)).
  destruct (isReserved (stemUpper t)) eqn:E.
  - rewrite limitLength_short by (simpl; unfold MAX_FILENAME_LENGTH; lia).
    cbn [isEmpty]. split.
    + intros c r Ec. inversion Ec; subst. reflexivity.
    + intros r c Ec. destruct t as [|x t'] eqn:Et; [discriminate E|].
      destruct r as [|y r'].
      * inversion Ec.
      * inversion Ec as [[Hy Hr]]. now apply (Hlast r').
  - rewrite limitLength_short by (unfold MAX_FILENAME_LENGTH; lia).
    destruct (isEmpty t) eqn:Et.
    + split.
      * intros c r Ec. inversion Ec; subst. reflexivity.
      * intros r c Ec.
        change (js "file") with ([102; 105; 108]%N ++ [101%N]) in Ec.
        apply app_inj_tail in Ec as [_ <-]. reflexivity.
    + split; assumption.
Qed.

Lemma sanitizeFilename_trimmed_witness :
  length (js " .hidden. ") <= 199
  /\ isSpaceOrDot (nth 0 (sanitizeFilename (js " .hidden. ")) 0%N) = false.
Proof.
  split; [simpl; lia|].
  destruct (sanitizeFilename_trimmed (js " .hidden. ")) as [H _];
    [simpl; lia|].
  eapply H. vm_compute. reflexivity.
Defined.

(* ------------------------------------------------------------------ *)
(** ** More on the run: requests, sizes, fresh paths, outcome *)
(* ------------------------------------------------------------------ *)

Module RunFacts.

Lemma requestEvent_download host token urls url res evs :
  In url urls -> Download host url token res evs ->
  Forall (requestEvent host token urls) evs
  /\ (forall b p, res = Some b ->
        requestEvent host token urls (WriteFile p (Bytes b))).
Proof.
  intros Hin D. inversion D; subst; split;
    try (repeat constructor; assumption); try discriminate.
  intros b p E. inversion E; subst. split; [assumption|].
  exists url, resp. repeat split; assumption.
Qed.

Lemma requestEvent_more host token urls url e :
  requestEvent host token urls e -> requestEvent host token (url :: urls) e.
Proof.
  destruct e as [| |u t| | |p [b|m]| |]; simpl; try tauto.
  intros (H1 & u & resp & H2 & H3). split; [exact H1|].
  exists u, resp. tauto.
Qed.

Lemma ensureUniquePath_free fs dir filename p :
  ensureUniquePath fs dir filename = Some p -> ~ In p fs.
Proof.
  unfold ensureUniquePath. intros H.
  apply loop_some in H as (k & _ & Hfree & _).
  intros C. apply existsSync_In in C. congruence.
Qed.

(** The loop over the URLs, in full: it returns the paths it wrote; its
    requests and writes are those of [requestEvent]; the paths it writes
    are new and pairwise distinct, and nothing on disk disappears. *)
Lemma processUrls_full host targetDir token : forall urls acc w,
  exists evs fs',
    processUrls host targetDir token urls acc w
    = (Returned (acc ++ writtenFiles evs),
       {| existing := fs'; trace := trace w ++ evs |})
    /\ Forall (requestEvent host token urls) evs
    /\ incl (existing w) fs'
    /\ (forall p, In p (writtenFiles evs) -> ~ In p (existing w) /\ In p fs')
    /\ NoDup (writtenFiles evs).
Proof.
  induction urls as [|url rest IH]; intros acc w.
  - exists [], (existing w). rewrite !app_nil_r. destruct w.
    repeat split; try constructor; try contradiction.
    apply incl_refl.
  - cbn [processUrls]. unfold bind at 1. cbn [console_log emit].
    unfold bind at 1.
    destruct (downloadFile_run host url token
                {| existing := existing w;
                   trace := trace w ++ [ConsoleLog (MsgProcessing url)] |})
      as (res & evsD & D & ->).
    destruct (requestEvent_download host token (url :: rest) url res evsD
                ltac:(now left) D) as [HD Hwrite].
    pose proof (Download_events _ _ _ _ _ D) as HwD.
    unfold after_events. cbn [existing trace].
    destruct res as [buf|].
    + unfold bind at 1. unfold ensureUniqueFilename. cbn [existing trace].
      destruct (ensureUniquePath_total (existing w) targetDir
                  (getFilenameFromUrl url) (sanitize_clean _)) as [p Ep].
      rewrite Ep.
      pose proof (ensureUniquePath_free _ _ _ _ Ep) as Hfree.
      unfold bind at 1. unfold fs_writeFile, bind at 1, emit, create.
      cbn [existing trace fst snd]. unfold bind at 1.
      cbn [console_log emit existing trace].
      assert (Hex : existsSync (existing w) p = false).
      { destruct (existsSync (existing w) p) eqn:E; [|reflexivity].
        apply existsSync_In in E. contradiction. }
      rewrite Hex.
      match goal with
      | |- context [processUrls _ _ _ rest _ ?w0] =>
          destruct (IH (acc ++ [p]) w0)
            as (evs & fs' & E & He & Hincl & Hnew & Hnd)
      end.
      rewrite E. cbn [trace existing] in *.
      exists ([ConsoleLog (MsgProcessing url)] ++ evsD
                ++ [WriteFile p (Bytes buf); ConsoleLog (MsgSaved p)]
                ++ evs), fs'.
      assert (Hw : writtenFiles
                     ([ConsoleLog (MsgProcessing url)] ++ evsD
                        ++ [WriteFile p (Bytes buf); ConsoleLog (MsgSaved p)]
                        ++ evs)
                   = p :: writtenFiles evs).
      { cbn [app writtenFiles]. rewrite writtenFiles_app, HwD. reflexivity. }
      rewrite Hw.
      split; [|split; [|split; [|split]]].
      * f_equal; [now rewrite <- app_assoc|].
        f_equal. now rewrite <- !app_assoc.
      * constructor; [exact I|]. apply Forall_app. split; [exact HD|].
        constructor; [now apply Hwrite|].
        constructor; [exact I|].
        eapply Forall_impl; [|exact He]. intros e. apply requestEvent_more.
      * intros x Hx. apply Hincl. apply in_or_app. now left.
      * intros x [<-|Hx].
        -- split; [exact Hfree|]. apply Hincl. apply in_or_app.
           right. now left.
        -- destruct (Hnew x Hx) as [Hn Hi]. split; [|exact Hi].
           intros C. apply Hn. apply in_or_app. now left.
      * constructor; [|exact Hnd].
        intros C. destruct (Hnew p C) as [Hn _]. apply Hn.
        apply in_or_app. right. now left.
    + match goal with
      | |- context [processUrls _ _ _ rest _ ?w0] =>
          destruct (IH acc w0) as (evs & fs' & E & He & Hincl & Hnew & Hnd)
      end.
      rewrite E. cbn [trace existing] in *.
      exists ([ConsoleLog (MsgProcessing url)] ++ evsD ++ evs), fs'.
      assert (Hw : writtenFiles
                     ([ConsoleLog (MsgProcessing url)] ++ evsD ++ evs)
                   = writtenFiles evs).
      { cbn [app writtenFiles]. now rewrite writtenFiles_app, HwD. }
      rewrite Hw.
      split; [|split; [|split; [|split]]]; try assumption.
      * f_equal. f_equal. now rewrite <- !app_assoc.
      * constructor; [exact I|]. apply Forall_app. split; [exact HD|].
        eapply Forall_impl; [|exact He]. intros e. apply requestEvent_more.
Qed.

End RunFacts.

Import RunFacts.

(* ------------------------------------------------------------------ *)
(** ** The guard after the check of the issue number *)
(* ------------------------------------------------------------------ *)

Lemma stripCommon_prefix a x : Path.stripCommon a (a ++ x) = ([], x).
Proof.
  induction a as [|y a IH]; [now destruct x|].
  simpl. now rewrite streq_refl.
Qed.

(** After the check of the issue number the guard does not fire. *)
Lemma guard_passes (host : platform) (issueNumber : jsstring) :
  Path.isAbsolute (cwd host) = true ->
  allDigits issueNumber = true ->
  traversalDetected host (baseDirOf host) (targetDirOf host issueNumber)
  = false
  /\ targetDirOf host issueNumber
     = baseDirOf host ++ js "/issue_" ++ issueNumber.
Proof.
  intros Hcwd Hdigits.
  destruct (resolve_uploaded (cwd host) Hcwd) as [segs Hbase].
  fold (baseDirOf host) in Hbase.
  pose proof (issue_name_clean issueNumber Hdigits) as Hissue.
  destruct (join_child (baseDirOf host) _ (js "issue_" ++ issueNumber)
              Hbase ltac:(now destruct segs) Hissue) as [Htd Habs].
  fold (targetDirOf host issueNumber) in Htd. rewrite <- Htd in Habs.
  split; [|exact Htd].
  unfold traversalDetected.
  rewrite (resolve_fixed _ _ _ Habs). unfold Path.relative.
  rewrite (resolve_fixed _ _ _ Habs), (resolve_fixed _ _ _ Hbase).
  assert (Hneq : streq (baseDirOf host) (targetDirOf host issueNumber)
                 = false).
  { apply streq_neq. intros C. rewrite Htd in C.
    apply (f_equal (@length N)) in C. rewrite !length_app in C.
    simpl in C. lia. }
  rewrite Hneq.
  rewrite (segments_absolute _ _ Hbase), (segments_absolute _ _ Habs).
  rewrite stripCommon_prefix. reflexivity.
Qed.

(** X7: once the issue number has passed the check, the path traversal
    guard of [main] never fires: the target directory is the base
    directory followed by one clean segment. *)
Theorem traversal_never_detected (host : platform) (issueNumber : jsstring) :
  Path.isAbsolute (cwd host) = true ->
  allDigits issueNumber = true ->
  traversalDetected host (baseDirOf host) (targetDirOf host issueNumber)
  = false
  /\ targetDirOf host issueNumber
     = baseDirOf host ++ js "/issue_" ++ issueNumber.
Proof. apply guard_passes. Qed.

Lemma traversal_never_detected_witness :
  traversalDetected Sample.host (baseDirOf Sample.host)
    (targetDirOf Sample.host (js "42")) = false.
Proof.
  apply (traversal_never_detected Sample.host (js "42")); reflexivity.
Defined.

(* ------------------------------------------------------------------ *)
(** ** The shape of a run *)
(* ------------------------------------------------------------------ *)

Module ShapeFacts.

Ltac quiet_events :=
  repeat first [ apply Forall_nil | apply Forall_cons; [exact I|] ].

Ltac rejected_run :=
  left; eexists; split; [reflexivity|].

(** A run is either refused at once, for a missing input, an issue number
    that is not a number or a target outside the base, or it is the loop
    over the URLs between events that touch no download. *)
Lemma script_shape host env fs :
  (exists m,
     run_script host env fs
     = (Exited 1,
        {| existing := fs; trace := [ConsoleError m; ProcessExit 1] |})
     /\ (truthy (GITHUB_TOKEN env) = None
         \/ truthy (ISSUE_NUMBER env) = None
         \/ truthy (COMMENT_ID env) = None
         \/ truthy (GITHUB_REPOSITORY env) = None
         \/ exists n,
              truthy (ISSUE_NUMBER env) = Some n
              /\ (allDigits n = false
                  \/ traversalDetected host (baseDirOf host)
                       (targetDirOf host n) = true)))
  \/ (exists token issueNumber pre evs post,
        truthy (GITHUB_TOKEN env) = Some token
        /\ truthy (ISSUE_NUMBER env) = Some issueNumber
        /\ allDigits issueNumber = true
        /\ trace (snd (run_script host env fs)) = pre ++ evs ++ post
        /\ In (Mkdir (targetDirOf host issueNumber)) pre
        /\ Forall quiet pre /\ Forall quiet post
        /\ Forall (requestEvent host token
                     (extractFileUrls (commentBodyOf env))) evs
        /\ NoDup (writtenFiles evs)
        /\ (forall p, In p (writtenFiles evs) -> ~ In p fs)
        /\ (forall o,
              truthy (GITHUB_OUTPUT env) = Some o ->
              fst (run_script host env fs) = Returned tt
              /\ In (AppendFile o (flagLine (writtenFiles evs))) post)
        /\ (truthy (GITHUB_OUTPUT env) = None ->
            fst (run_script host env fs) = Exited 1)).
Proof.
  unfold run_script, script, tryCatch, main.
  destruct (truthy (GITHUB_TOKEN env)) as [token|] eqn:Etoken;
    [|rejected_run; tauto].
  destruct (truthy (ISSUE_NUMBER env)) as [issueNumber|] eqn:Eissue;
    [|rejected_run; tauto].
  destruct (truthy (COMMENT_ID env)) as [commentId|] eqn:Ecid;
    [|rejected_run; tauto].
  destruct (truthy (GITHUB_REPOSITORY env)) as [repository|] eqn:Erepo;
    [|rejected_run; tauto].
  destruct (allDigits issueNumber) eqn:Edigits; cbn [negb];
    [|rejected_run; do 4 right; exists issueNumber; tauto].
  unfold bind at 1. cbn [ret]. unfold guarded.
  fold (baseDirOf host). fold (targetDirOf host issueNumber).
  destruct (traversalDetected host _ _) eqn:Eguard;
    [rejected_run; do 4 right; exists issueNumber; tauto|].
  right. exists token, issueNumber.
  unfold bind at 1. cbn [ret]. unfold ingest.
  fold (commentBodyOf env).
  set (urls := extractFileUrls (commentBodyOf env)).
  set (td := targetDirOf host issueNumber).
  unfold fs_mkdir, console_log, emit, create, bind, ret.
  cbn [fst snd existing trace app].
  destruct (length urls =? 0)%nat eqn:Elen.
  - assert (Hurls : urls = [])
      by (apply Nat.eqb_eq in Elen; now destruct urls).
    unfold setOutput.
    destruct (truthy (GITHUB_OUTPUT env)) as [outputPath|] eqn:Eout.
    + unfold fs_appendFile, bind, emit, create. cbn [existing trace app].
      exists [Mkdir td; ConsoleLog MsgNoUrls], [],
        [AppendFile outputPath
           (js "files_processed" ++ js "=" ++ js "false" ++ [newline])].
      split; [reflexivity|]. split; [reflexivity|].
      split; [exact Edigits|]. split; [reflexivity|].
      split; [now left|].
      split; [quiet_events|]. split; [quiet_events|].
      split; [constructor|]. split; [constructor|].
      split; [intros p []|].
      split; [|discriminate].
      intros o Eo. inversion Eo; subst. split; [reflexivity|now left].
    + unfold throw, bind, console_error, emit, process_exit.
      cbn [existing trace app].
      exists [Mkdir td; ConsoleLog MsgNoUrls], [],
        [ConsoleError (MsgFatal OutputNotSet); ProcessExit 1].
      split; [reflexivity|]. split; [reflexivity|].
      split; [exact Edigits|]. split; [reflexivity|].
      split; [now left|].
      split; [quiet_events|]. split; [quiet_events|].
      split; [constructor|]. split; [constructor|].
      split; [intros p []|].
      split; [discriminate|reflexivity].
  - match goal with
    | |- context [processUrls _ _ _ urls [] ?w0] =>
        destruct (processUrls_full host td token urls [] w0)
          as (evs & fs' & E & He & Hincl & Hnew & Hnd)
    end.
    rewrite E. cbn [trace existing app] in *.
    assert (Hfresh : forall p, In p (writtenFiles evs) -> ~ In p fs).
    { intros p Hp C. destruct (Hnew p Hp) as [Hn _]. apply Hn.
      destruct (existsSync fs td); [exact C|].
      apply in_or_app. now left. }
    destruct (0 <? length (writtenFiles evs))%nat eqn:Ew.
    + unfold setOutput.
      destruct (truthy (GITHUB_OUTPUT env)) as [outputPath|] eqn:Eout.
      * unfold fs_appendFile, fs_writeFile, console_log, bind, emit, create.
        cbn [existing trace fst snd].
        eexists [Mkdir td; ConsoleLog (MsgFound (length urls))], evs,
          [AppendFile outputPath _; AppendFile outputPath _;
           WriteFile _ (Json _); ConsoleLog _].
        split; [reflexivity|]. split; [reflexivity|].
        split; [exact Edigits|].
        split; [cbn [fst snd trace]; now rewrite <- !app_assoc|].
        split; [now left|].
        split; [quiet_events|]. split; [quiet_events|].
        split; [exact He|]. split; [exact Hnd|]. split; [exact Hfresh|].
        split; [|discriminate].
        intros o Eo. inversion Eo; subst. split; [reflexivity|].
        left. unfold flagLine. now rewrite Ew.
      * unfold throw, bind, console_error, emit, process_exit.
        cbn [existing trace].
        exists [Mkdir td; ConsoleLog (MsgFound (length urls))], evs,
          [ConsoleError (MsgFatal OutputNotSet); ProcessExit 1].
        split; [reflexivity|]. split; [reflexivity|].
        split; [exact Edigits|].
        split; [cbn [fst snd trace]; now rewrite <- !app_assoc|].
        split; [now left|].
        split; [quiet_events|]. split; [quiet_events|].
        split; [exact He|]. split; [exact Hnd|]. split; [exact Hfresh|].
        split; [discriminate|reflexivity].
    + unfold setOutput.
      destruct (truthy (GITHUB_OUTPUT env)) as [outputPath|] eqn:Eout.
      * unfold fs_appendFile, console_log, bind, emit, create.
        cbn [existing trace fst snd].
        eexists [Mkdir td; ConsoleLog (MsgFound (length urls))], evs,
          [AppendFile outputPath _; ConsoleLog _].
        split; [reflexivity|]. split; [reflexivity|].
        split; [exact Edigits|].
        split; [cbn [fst snd trace]; now rewrite <- !app_assoc|].
        split; [now left|].
        split; [quiet_events|]. split; [quiet_events|].
        split; [exact He|]. split; [exact Hnd|]. split; [exact Hfresh|].
        split; [|discriminate].
        intros o Eo. inversion Eo; subst. split; [reflexivity|].
        left. unfold flagLine. now rewrite Ew.
      * unfold throw, bind, console_error, emit, process_exit.
        cbn [existing trace].
        exists [Mkdir td; ConsoleLog (MsgFound (length urls))], evs,
          [ConsoleError (MsgFatal OutputNotSet); ProcessExit 1].
        split; [reflexivity|]. split; [reflexivity|].
        split; [exact Edigits|].
        split; [cbn [fst snd trace]; now rewrite <- !app_assoc|].
        split; [now left|].
        split; [quiet_events|]. split; [quiet_events|].
        split; [exact He|]. split; [exact Hnd|]. split; [exact Hfresh|].
        split; [discriminate|reflexivity].
Qed.

Lemma quiet_written l : Forall quiet l -> writtenFiles l = [].
Proof.
  induction 1 as [|e l He _ IH]; [reflexivity|].
  destruct e as [| | | | |p [b|m]| |]; simpl in *; tauto.
Qed.

Lemma quiet_In l e : Forall quiet l -> In e l -> quiet e.
Proof. intros H. rewrite Forall_forall in H. apply H. Qed.

End ShapeFacts.

Import ShapeFacts.

(** X8: every request of a run goes to a URL that was extracted from the
    comment and that the validator accepts, and carries the token of the
    environment: the credential is never sent for a URL that is not on the
    allow-list. *)
Theorem run_requests_allowed (host : platform) (env : environment)
    (fs : list jsstring) (u t : jsstring) :
  In (Fetch u t) (trace (snd (run_script host env fs))) ->
  truthy (GITHUB_TOKEN env) = Some t
  /\ In u (extractFileUrls (commentBodyOf env))
  /\ isAllowedGithubDomain host u = true.
Proof.
  intros Hin.
  destruct (script_shape host env fs)
    as [(m & E & _)
       |(token & n & pre & evs & post & Etok & _ & _ & Et & _ & Hpre & Hpost
         & Hev & _)].
  - rewrite E in Hin. cbn in Hin. intuition discriminate.
  - rewrite Et in Hin.
    apply in_app_or in Hin as [Hin|Hin];
      [exact (False_ind _ (quiet_In _ _ Hpre Hin))|].
    apply in_app_or in Hin as [Hin|Hin];
      [|exact (False_ind _ (quiet_In _ _ Hpost Hin))].
    rewrite Forall_forall in Hev. apply Hev in Hin.
    destruct Hin as (-> & Hu & Ha). now repeat split.
Qed.

Lemma run_requests_allowed_witness :
  isAllowedGithubDomain Sample.host
    (js "https://user-images.githubusercontent.com/1/2/3/abc.png") = true.
Proof.
  apply (run_requests_allowed Sample.host
           (Sample.env Sample.imageComment None) []
           (js "https://user-images.githubusercontent.com/1/2/3/abc.png")
           (js "t0ken")).
  vm_compute. tauto.
Defined.

(** X9: every downloaded file a run writes holds the whole body of a
    successful response to a request for an extracted, allowed URL, and
    has at most 25 MiB. *)
Theorem run_written_bodies (host : platform) (env : environment)
    (fs : list jsstring) (p : jsstring) (b : buffer) :
  In (WriteFile p (Bytes b)) (trace (snd (run_script host env fs))) ->
  (byteLength b <= MAX_FILE_SIZE)%N
  /\ exists token u resp,
       truthy (GITHUB_TOKEN env) = Some token
       /\ In u (extractFileUrls (commentBodyOf env))
       /\ isAllowedGithubDomain host u = true
       /\ network host u token = FetchResolved resp
       /\ ok resp = true /\ body resp = Some b.
Proof.
  intros Hin.
  destruct (script_shape host env fs)
    as [(m & E & _)
       |(token & n & pre & evs & post & Etok & _ & _ & Et & _ & Hpre & Hpost
         & Hev & _)].
  - rewrite E in Hin. cbn in Hin. intuition discriminate.
  - rewrite Et in Hin.
    apply in_app_or in Hin as [Hin|Hin];
      [exact (False_ind _ (quiet_In _ _ Hpre Hin))|].
    apply in_app_or in Hin as [Hin|Hin];
      [|exact (False_ind _ (quiet_In _ _ Hpost Hin))].
    rewrite Forall_forall in Hev. apply Hev in Hin.
    destruct Hin as (Hsize & u & resp & Hrest).
    split; [exact Hsize|]. exists token, u, resp. tauto.
Qed.

Lemma run_written_bodies_witness :
  (byteLength Sample.png <= MAX_FILE_SIZE)%N.
Proof.
  apply (run_written_bodies Sample.host
           (Sample.env Sample.imageComment None) []
           (issue42 ++ js "/abc.png") Sample.png).
  vm_compute. tauto.
Defined.

(** X10: the downloaded files of a run go to pairwise distinct paths, none
    of which existed before the run: no download overwrites a file that
    was on disk or another download of the same run. *)
Theorem run_written_fresh (host : platform) (env : environment)
    (fs : list jsstring) :
  let t := trace (snd (run_script host env fs)) in
  NoDup (writtenFiles t) /\ forall p, In p (writtenFiles t) -> ~ In p fs.
Proof.
  cbv zeta.
  destruct (script_shape host env fs)
    as [(m & E & _)
       |(token & n & pre & evs & post & _ & _ & _ & Et & _ & Hpre & Hpost
         & _ & Hnd & Hfresh & _)].
  - rewrite E. cbn. split; [constructor|tauto].
  - rewrite Et, !writtenFiles_app.
    rewrite (quiet_written _ Hpre), (quiet_written _ Hpost), app_nil_r.
    now split.
Qed.

(** X11: a run has one of two outcomes, whatever the host and the
    environment: it returns, or it exits with code 1. *)
Theorem run_outcomes (host : platform) (env : environment)
    (fs : list jsstring) :
  fst (run_script host env fs) = Returned tt
  \/ fst (run_script host env fs) = Exited 1.
Proof.
  destruct (script_run host env fs) as (evs & fs' & r & E & _ & H & _).
  rewrite E. exact H.
Qed.



(** X13: when one of the four required inputs is unset or empty, the run
    prints one error and exits with code 1; it creates nothing, requests
    nothing and writes nothing. *)
Theorem run_missing_input (host : platform) (env : environment)
    (fs : list jsstring) :
  truthy (GITHUB_TOKEN env) = None \/ truthy (ISSUE_NUMBER env) = None
  \/ truthy (COMMENT_ID env) = None \/ truthy (GITHUB_REPOSITORY env) = None ->
  run_script host env fs
  = (Exited 1,
     {| existing := fs;
        trace := [ConsoleError MsgMissingEnvironment; ProcessExit 1] |}).
Proof.
  intros H. unfold run_script, script, tryCatch, main.
  destruct (truthy (GITHUB_TOKEN env)); [|reflexivity].
  destruct (truthy (ISSUE_NUMBER env)); [|reflexivity].
  destruct (truthy (COMMENT_ID env)); [|reflexivity].
  destruct (truthy (GITHUB_REPOSITORY env)); [|reflexivity].
  exfalso. intuition discriminate.
Qed.

Lemma run_missing_input_witness :
  run_script Sample.host
    {| GITHUB_TOKEN := Some [];
       ISSUE_NUMBER := Some (js "42");
       COMMENT_BODY := Some Sample.imageComment;
       COMMENT_ID := Some (js "1001");
       GITHUB_REPOSITORY := Some (js "codenote-net/sandbox");
       GITHUB_OUTPUT := Some (js "/tmp/out") |} []
  = (Exited 1,
     {| existing := [];
        trace := [ConsoleError MsgMissingEnvironment; ProcessExit 1] |}).
Proof. apply run_missing_input. left. reflexivity. Defined.

(* ------------------------------------------------------------------ *)
(** ** The scheduling script *)
(* ------------------------------------------------------------------ *)

Module ScheduleFacts.

Import Schedule.

Local Open Scope Z_scope.

Section Days.

Variable host : services.

(** Only the calendar day of a date matters to [isBusinessDay]. *)
Lemma isBusinessDay_day d :
  100 <= fullYear d ->
  isBusinessDay host (newDate (fullYear d) (month d) (date d))
  = isBusinessDay host d.
Proof.
  intros Hy. unfold isBusinessDay, getDay, newDate.
  cbn [fullYear month date].
  destruct (Z.leb_spec (fullYear d) 99); [lia|].
  now rewrite andb_false_r.
Qed.

(** Within a month the day of the week moves one step a day. *)
Lemma getDay_shift y m i :
  getDay (newDate y m i) = (getDay (newDate y m 1) + (i - 1)) mod 7.
Proof.
  unfold getDay, daysFromCivil. cbn [fullYear month date newDate].
  rewrite Z.add_mod_idemp_l by lia. f_equal. lia.
Qed.

Lemma countFrom_bounds now : forall steps i num,
  num <= countFrom host now i steps num <= num + Z.of_nat steps.
Proof.
  induction steps as [|k IH]; intros i num; [simpl; lia|].
  cbn [countFrom].
  destruct (isBusinessDay host (newDate (fullYear now) (month now) i)).
  - specialize (IH (i + 1) (num + 1)). lia.
  - specialize (IH (i + 1) num). lia.
Qed.

Lemma countFrom_shift now : forall steps i num k,
  countFrom host now i steps (num + k) = countFrom host now i steps num + k.
Proof.
  induction steps as [|n IH]; intros i num k; [reflexivity|].
  cbn [countFrom].
  destruct (isBusinessDay host (newDate (fullYear now) (month now) i)).
  - replace (num + k + 1) with (num + 1 + k) by lia. apply IH.
  - apply IH.
Qed.

(** The last turn of the loop. *)
Lemma countFrom_last now : forall steps i num,
  countFrom host now i (S steps) num
  = countFrom host now i steps num
    + (if isBusinessDay host
            (newDate (fullYear now) (month now) (i + Z.of_nat steps))
       then 1 else 0).
Proof.
  induction steps as [|n IH]; intros i num.
  - cbn [countFrom]. rewrite Z.add_0_r.
    destruct (isBusinessDay host _); lia.
  - change (countFrom host now i (S (S n)) num)
      with (countFrom host now (i + 1) (S n)
              (if isBusinessDay host
                    (newDate (fullYear now) (month now) i)
               then num + 1 else num)).
    rewrite IH. cbn [countFrom].
    replace (i + 1 + Z.of_nat n) with (i + Z.of_nat (S n)) by lia.
    reflexivity.
Qed.

(** The loop counts the business days among the days it visits. *)
Lemma countFrom_filter now : forall steps i num,
  countFrom host now i steps num
  = num + Z.of_nat
            (length
               (filter
                  (fun k =>
                     isBusinessDay host
                       (newDate (fullYear now) (month now)
                          (i + Z.of_nat k)))
                  (seq 0 steps))).
Proof.
  induction steps as [|n IH]; intros i num; [simpl; lia|].
  rewrite countFrom_last, IH, seq_S, filter_app, length_app.
  cbn [filter plus].
  destruct (isBusinessDay host _); simpl; lia.
Qed.

(** A weekend day is no business day, whatever the calendar says. *)
Lemma isBusinessDay_weekday d :
  isBusinessDay host d = true -> weekdayNumber (getDay d) = true.
Proof.
  unfold isBusinessDay, weekdayNumber.
  destruct ((getDay d =? 0) || (getDay d =? 6)); [discriminate|reflexivity].
Qed.

Lemma countFrom_weekdays now : forall steps i num,
  countFrom host now i steps num
  <= num + Z.of_nat
             (length
                (filter
                   (fun k =>
                      weekdayNumber
                        ((getDay (newDate (fullYear now) (month now) 1)
                          + (i + Z.of_nat k - 1)) mod 7))
                   (seq 0 steps))).
Proof.
  intros steps i num. rewrite countFrom_filter.
  apply Z.add_le_mono_l. apply inj_le.
  induction (seq 0 steps) as [|k l IH]; [simpl; lia|].
  cbn [filter].
  destruct (isBusinessDay host _) eqn:E.
  - apply isBusinessDay_weekday in E. rewrite getDay_shift in E.
    rewrite E. simpl. lia.
  - destruct (weekdayNumber _); simpl; lia.
Qed.

End Days.

(** ** Triggers *)

Lemma uid_inj l t t' :
  NoDup (map uid l) -> In t l -> In t' l -> uid t = uid t' -> t = t'.
Proof.
  induction l as [|x l IH]; intros Hnd Ht Ht' E; [contradiction|].
  simpl in Hnd. inversion Hnd as [|? ? Hx Hl]; subst.
  destruct Ht as [->|Ht], Ht' as [->|Ht']; auto.
  - exfalso. apply Hx. rewrite E. now apply in_map.
  - exfalso. apply Hx. rewrite <- E. now apply in_map.
Qed.

(** The loop of [delTrigger] removes the triggers that share their identity
    with a trigger of the snapshot that calls [myFunction]. *)
Lemma deleteHandlers_triggers : forall snapshot s,
  triggers (deleteHandlers snapshot s)
  = filter
      (fun t =>
         negb (existsb
                 (fun t' => callsMyFunction t' && Nat.eqb (uid t) (uid t'))
                 snapshot))
      (triggers s)
  /\ reads (deleteHandlers snapshot s) = reads s
  /\ nextUid (deleteHandlers snapshot s) = nextUid s
  /\ posts (deleteHandlers snapshot s) = posts s.
Proof.
  induction snapshot as [|t more IH]; intros s.
  - cbn [deleteHandlers existsb negb]. repeat split.
    symmetry. apply forallb_filter_id. now apply forallb_forall.
  - cbn [deleteHandlers existsb]. fold (callsMyFunction t).
    destruct (callsMyFunction t) eqn:Ec.
    + destruct (IH (deleteTrigger t s)) as (Ht & Hr & Hn & Hp).
      rewrite Ht, Hr, Hn, Hp. cbn [deleteTrigger triggers reads nextUid posts].
      repeat split.
      induction (triggers s) as [|x l IHl]; [reflexivity|].
      cbn [filter andb]. destruct (Nat.eqb (uid x) (uid t)); cbn [negb orb].
      * exact IHl.
      * cbn [filter].
        destruct (existsb _ more); cbn [negb]; [exact IHl|now rewrite IHl].
    + destruct (IH s) as (Ht & Hr & Hn & Hp).
      rewrite Ht. cbn [andb orb]. now repeat split.
Qed.

Lemma filter_ext_In' {A} (f g : A -> bool) l :
  (forall x, In x l -> f x = g x) -> filter f l = filter g l.
Proof.
  induction l as [|x l IH]; intros H; [reflexivity|].
  simpl. rewrite (H x (or_introl eq_refl)), IH; [reflexivity|].
  intros y Hy. apply H. now right.
Qed.

Lemma delTrigger_triggers s :
  wellFormed s ->
  triggers (delTrigger s)
  = filter (fun t => negb (callsMyFunction t)) (triggers s).
Proof.
  intros [Hnd _]. unfold delTrigger.
  destruct (deleteHandlers_triggers (triggers s) s) as (-> & _).
  apply filter_ext_In'. intros t Ht. f_equal.
  destruct (callsMyFunction t) eqn:Ec.
  - apply existsb_exists. exists t. split; [exact Ht|].
    now rewrite Ec, Nat.eqb_refl.
  - destruct (existsb _ (triggers s)) eqn:E; [|reflexivity].
    apply existsb_exists in E as (t' & Ht' & E).
    apply andb_true_iff in E as [Ec' Eu]. apply Nat.eqb_eq in Eu.
    rewrite (uid_inj _ _ _ Hnd Ht Ht' Eu) in Ec. congruence.
Qed.

Lemma wellFormed_filter f s s' :
  wellFormed s -> triggers s' = filter f (triggers s) ->
  nextUid s' = nextUid s -> wellFormed s'.
Proof.
  intros [Hnd Hlt] Et En. unfold wellFormed. rewrite Et, En. split.
  - clear -Hnd. induction (triggers s) as [|x l IH]; [constructor|].
    simpl in Hnd. inversion Hnd as [|? ? Hx Hl]; subst.
    simpl. destruct (f x); [|now apply IH].
    simpl. constructor; [|now apply IH].
    intros C. apply Hx. apply in_map_iff in C as (y & E & Hy).
    apply filter_In in Hy as [Hy _]. rewrite <- E. now apply in_map.
  - apply Forall_forall. intros t Ht. apply filter_In in Ht as [Ht _].
    rewrite Forall_forall in Hlt. now apply Hlt.
Qed.

Lemma wellFormed_create name when s :
  wellFormed s -> wellFormed (createTrigger name when s).
Proof.
  intros [Hnd Hlt]. unfold wellFormed, createTrigger.
  cbn [triggers nextUid]. split.
  - rewrite map_app. cbn [map uid]. apply NoDup_app.
    + exact Hnd.
    + repeat constructor. intros [].
    + intros x Hx [<-|[]].
      apply in_map_iff in Hx as (t & E & Ht).
      rewrite Forall_forall in Hlt. apply Hlt in Ht.
      apply (f_equal Z.of_nat) in E. lia.
  - apply Forall_app. split.
    + eapply Forall_impl; [|exact Hlt]. cbn. intros t Ht. lia.
    + repeat constructor.
Qed.

(** ** The count of business days *)

Section Count.

Variable host : services.

Lemma numberOfBusinessDayAt_count now :
  isBusinessDay host now = true ->
  numberOfBusinessDayAt host now = Z.of_nat (businessDaysUpTo host now).
Proof.
  intros Hb. unfold numberOfBusinessDayAt, businessDaysUpTo, daysUpTo.
  rewrite Hb. cbn [negb]. rewrite countFrom_filter, Z.add_0_l.
  f_equal. induction (seq 0 (Z.to_nat (date now))) as [|k l IH];
    [reflexivity|].
  cbn [filter map].
  destruct (isBusinessDay host (newDate _ _ _)); cbn [length];
    now rewrite IH.
Qed.

Lemma numberOfBusinessDayAt_range now :
  0 <= numberOfBusinessDayAt host now <= Z.max 0 (date now).
Proof.
  unfold numberOfBusinessDayAt.
  destruct (isBusinessDay host now); cbn [negb]; [|lia].
  pose proof (countFrom_bounds host now (Z.to_nat (date now)) 1 0). lia.
Qed.

Lemma numberOfBusinessDayAt_positive now :
  100 <= fullYear now -> 1 <= date now ->
  isBusinessDay host now = true -> 1 <= numberOfBusinessDayAt host now.
Proof.
  intros Hy Hd Hb. unfold numberOfBusinessDayAt. rewrite Hb. cbn [negb].
  destruct (Z.to_nat (date now)) as [|k] eqn:E; [lia|].
  rewrite countFrom_last.
  replace (1 + Z.of_nat k) with (date now) by lia.
  rewrite (isBusinessDay_day host now Hy), Hb.
  pose proof (countFrom_bounds host now k 1 0). lia.
Qed.

(** Of at most seven days in a row at most five are weekdays. *)
Lemma weekdays_of_seven w n :
  0 <= w < 7 -> (n <= 7)%nat ->
  Z.of_nat
    (length
       (filter (fun k => weekdayNumber ((w + (1 + Z.of_nat k - 1)) mod 7))
          (seq 0 n))) <= 5.
Proof.
  intros Hw Hn.
  assert (Hcases : w = 0 \/ w = 1 \/ w = 2 \/ w = 3 \/ w = 4 \/ w = 5
                   \/ w = 6) by lia.
  assert (Hsteps : (n = 0 \/ n = 1 \/ n = 2 \/ n = 3 \/ n = 4 \/ n = 5
                    \/ n = 6 \/ n = 7)%nat) by lia.
  clear Hw Hn.
  destruct Hcases as [->|[->|[->|[->|[->|[->| ->]]]]]];
    destruct Hsteps as [->|[->|[->|[->|[->|[->|[->| ->]]]]]]];
    apply Z.leb_le; vm_compute; reflexivity.
Qed.

(** In the first seven days of a month at most five are business days. *)
Lemma numberOfBusinessDayAt_first_week now :
  date now <= 7 -> numberOfBusinessDayAt host now <= 5.
Proof.
  intros Hd. unfold numberOfBusinessDayAt.
  destruct (isBusinessDay host now); cbn [negb]; [|lia].
  eapply Z.le_trans; [apply countFrom_weekdays|].
  rewrite Z.add_0_l. apply weekdays_of_seven; [|lia].
  unfold getDay. apply Z.mod_pos_bound. lia.
Qed.

Lemma includes_dates d : d <= 7 -> includesZ TARGET_DATES d = false.
Proof.
  intros H. unfold includesZ, TARGET_DATES. cbn [existsb].
  destruct (Z.eqb_spec d 10); [lia|]. destruct (Z.eqb_spec d 15); [lia|].
  reflexivity.
Qed.

Lemma includes_numbers n :
  n <= 5 -> includesZ TARGET_NUMBER_OF_BUSINESS_DAYS n = false.
Proof.
  intros H. unfold includesZ, TARGET_NUMBER_OF_BUSINESS_DAYS. cbn [existsb].
  destruct (Z.eqb_spec n 6); [lia|]. destruct (Z.eqb_spec n 8); [lia|].
  reflexivity.
Qed.

(** What [canSetTrigger] and [setTrigger] leave as they were. *)
Lemma canSetTrigger_frame s :
  let s' := snd (canSetTrigger host s) in
  triggers s' = triggers s /\ nextUid s' = nextUid s /\ posts s' = posts s
  /\ (reads s' = S (reads s) \/ reads s' = S (S (reads s))).
Proof.
  unfold canSetTrigger, numberOfBusinessDay, readClock.
  cbv beta iota zeta.
  destruct (includesZ TARGET_DATES _);
    cbn [snd triggers nextUid posts reads]; [tauto|].
  destruct (includesZ TARGET_NUMBER_OF_BUSINESS_DAYS _);
    cbn [snd triggers nextUid posts reads]; tauto.
Qed.

Lemma setTrigger_effect s :
  (fst (canSetTrigger host s) = false
   /\ triggers (setTrigger host s) = triggers s
   /\ nextUid (setTrigger host s) = nextUid s
   /\ posts (setTrigger host s) = posts s)
  \/ (fst (canSetTrigger host s) = true
      /\ exists k, (reads s < k <= reads s + 2)%nat
         /\ triggers (setTrigger host s)
            = triggers s
              ++ [{| uid := nextUid s; handler := myFunctionName;
                     at_ := morningOf (clock host k) |}]
         /\ nextUid (setTrigger host s) = S (nextUid s)
         /\ posts (setTrigger host s) = posts s).
Proof.
  unfold setTrigger.
  pose proof (canSetTrigger_frame s) as (Ht & Hn & Hp & Hr).
  destruct (canSetTrigger host s) as [can s1]. cbn [fst snd] in *.
  destruct can.
  - right. split; [reflexivity|]. exists (reads s1).
    unfold readClock, createTrigger, setHours, setMinutes, morningOf,
      TARGET_HOURS, TARGET_MINUTES.
    cbn [triggers nextUid posts reads fullYear month date hours minutes rest].
    rewrite Ht, Hn, Hp. repeat split; lia.
  - left. auto.
Qed.

Lemma wellFormed_setTrigger s :
  wellFormed s -> wellFormed (setTrigger host s).
Proof.
  intros Hwf. unfold setTrigger.
  pose proof (canSetTrigger_frame s) as (Ht & Hn & Hp & Hr).
  destruct (canSetTrigger host s) as [can s1]. cbn [fst snd] in *.
  assert (Hwf1 : wellFormed s1) by (unfold wellFormed; now rewrite Ht, Hn).
  destruct can; [|exact Hwf1].
  unfold readClock. apply wellFormed_create.
  unfold wellFormed. cbn [triggers nextUid]. exact Hwf1.
Qed.

End Count.

Lemma wellFormed_delTrigger s : wellFormed s -> wellFormed (delTrigger s).
Proof.
  intros Hwf. eapply wellFormed_filter; [exact Hwf| |].
  - now apply delTrigger_triggers.
  - unfold delTrigger.
    now destruct (deleteHandlers_triggers (triggers s) s) as (_ & _ & -> & _).
Qed.

Lemma sample_wellFormed : wellFormed sampleProject.
Proof.
  split.
  - repeat constructor; simpl; intuition discriminate.
  - repeat constructor.
Qed.

End ScheduleFacts.

(* ------------------------------------------------------------------ *)
(** ** The scheduling script: what a project can rely on *)
(* ------------------------------------------------------------------ *)

Import Schedule ScheduleFacts.

Local Open Scope Z_scope.

(** X14: on a day the clock shows (year from 100 on, day of the month from 1
    on) [numberOfBusinessDay] returns 0 exactly when that day is no business
    day; otherwise it returns a number from 1 to the day of the month.  It
    reads the clock once. *)
Theorem numberOfBusinessDay_zero (host : services) (s : project) :
  100 <= fullYear (clock host (reads s)) ->
  1 <= date (clock host (reads s)) ->
  (fst (numberOfBusinessDay host s) = 0
   <-> isBusinessDay host (clock host (reads s)) = false)
  /\ 0 <= fst (numberOfBusinessDay host s) <= date (clock host (reads s))
  /\ reads (snd (numberOfBusinessDay host s)) = S (reads s).
Proof.
  intros Hy Hd. unfold numberOfBusinessDay, readClock.
  cbn [fst snd reads].
  set (now := clock host (reads s)) in *.
  pose proof (numberOfBusinessDayAt_range host now) as Hr.
  repeat split; try lia.
  - intros E. destruct (isBusinessDay host now) eqn:Hb; [|reflexivity].
    pose proof (numberOfBusinessDayAt_positive host now Hy Hd Hb). lia.
  - intros Hb. unfold numberOfBusinessDayAt. now rewrite Hb.
Qed.

Lemma numberOfBusinessDay_zero_witness :
  (fst (numberOfBusinessDay sampleServices sampleProject) = 0
   <-> isBusinessDay sampleServices (clock sampleServices 0) = false)
  /\ 0 <= fst (numberOfBusinessDay sampleServices sampleProject) <= 10
  /\ reads (snd (numberOfBusinessDay sampleServices sampleProject)) = 1%nat.
Proof.
  apply (numberOfBusinessDay_zero sampleServices sampleProject);
    vm_compute; discriminate.
Defined.

(** X15: on a business day [numberOfBusinessDay] returns the number of
    business days among the days of the month up to that day: the day is
    the n-th business day of its month. *)
Theorem numberOfBusinessDay_counts (host : services) (s : project) :
  isBusinessDay host (clock host (reads s)) = true ->
  fst (numberOfBusinessDay host s)
  = Z.of_nat (businessDaysUpTo host (clock host (reads s))).
Proof.
  intros Hb. unfold numberOfBusinessDay, readClock. cbn [fst].
  now apply numberOfBusinessDayAt_count.
Qed.

Lemma numberOfBusinessDay_counts_witness :
  isBusinessDay sampleServices (clock sampleServices 0) = true
  /\ fst (numberOfBusinessDay sampleServices sampleProject) = 6.
Proof.
  split; [reflexivity|].
  now rewrite (numberOfBusinessDay_counts sampleServices sampleProject).
Defined.

(** X16: while the clock shows one of the first seven days of a month,
    [canSetTrigger] is false and [setTrigger] creates no trigger: the sixth
    business day is never before the eighth. *)
Theorem canSetTrigger_first_week (host : services) (s : project) :
  date (clock host (reads s)) <= 7 ->
  date (clock host (S (reads s))) <= 7 ->
  fst (canSetTrigger host s) = false
  /\ triggers (setTrigger host s) = triggers s.
Proof.
  intros H1 H2.
  assert (E : fst (canSetTrigger host s) = false).
  { unfold canSetTrigger, numberOfBusinessDay, readClock.
    cbv beta iota zeta. cbn [reads].
    rewrite (includes_dates _ H1).
    rewrite includes_numbers; [reflexivity|].
    now apply numberOfBusinessDayAt_first_week. }
  split; [exact E|].
  destruct (setTrigger_effect host s) as [(_ & Ht & _)|(E' & _)];
    [exact Ht|congruence].
Qed.

Lemma canSetTrigger_first_week_witness :
  fst (canSetTrigger earlyServices sampleProject) = false
  /\ triggers (setTrigger earlyServices sampleProject)
     = triggers sampleProject.
Proof.
  apply (canSetTrigger_first_week earlyServices sampleProject);
    vm_compute; discriminate.
Defined.

(** X17: in a project whose triggers have distinct identities [delTrigger]
    removes exactly the triggers that call myFunction: the others stay, in
    their order, and nothing is posted. *)
Theorem delTrigger_removes_handlers (s : project) :
  wellFormed s ->
  triggers (delTrigger s)
  = filter (fun t => negb (callsMyFunction t)) (triggers s)
  /\ wellFormed (delTrigger s)
  /\ posts (delTrigger s) = posts s.
Proof.
  intros Hwf. split; [now apply delTrigger_triggers|].
  split; [now apply wellFormed_delTrigger|].
  unfold delTrigger.
  now destruct (deleteHandlers_triggers (triggers s) s) as (_ & _ & _ & ->).
Qed.

Lemma delTrigger_removes_handlers_witness :
  map handler (triggers (delTrigger sampleProject)) = [js "report"]
  /\ wellFormed (delTrigger sampleProject).
Proof.
  destruct (delTrigger_removes_handlers sampleProject sample_wellFormed)
    as (Ht & Hwf & _).
  split; [now rewrite Ht|exact Hwf].
Defined.

(** X18: [setTrigger] never removes or changes a trigger and posts nothing;
    when [canSetTrigger] allows it, it adds one trigger, with a new identity,
    that calls myFunction at 9:00 of the day a later reading of the clock
    shows. *)
Theorem setTrigger_adds_morning (host : services) (s : project) :
  wellFormed s ->
  wellFormed (setTrigger host s)
  /\ posts (setTrigger host s) = posts s
  /\ ((fst (canSetTrigger host s) = false
       /\ triggers (setTrigger host s) = triggers s)
      \/ (fst (canSetTrigger host s) = true
          /\ exists k, (reads s < k <= reads s + 2)%nat
             /\ triggers (setTrigger host s)
                = triggers s
                  ++ [{| uid := nextUid s; handler := myFunctionName;
                         at_ := morningOf (clock host k) |}])).
Proof.
  intros Hwf. split; [now apply wellFormed_setTrigger|].
  destruct (setTrigger_effect host s)
    as [(E & Ht & _ & Hp)|(E & k & Hk & Ht & _ & Hp)].
  - split; [exact Hp|]. left. now split.
  - split; [exact Hp|]. right. split; [exact E|]. now exists k.
Qed.

Lemma setTrigger_adds_morning_witness :
  triggers (setTrigger sampleServices sampleProject)
  = triggers sampleProject
    ++ [{| uid := 2%nat; handler := myFunctionName;
           at_ := {| fullYear := 2024; month := 0; date := 10;
                     hours := 9; minutes := 0; rest := 30 |} |}]
  /\ wellFormed (setTrigger sampleServices sampleProject).
Proof.
  destruct (setTrigger_adds_morning sampleServices sampleProject
              sample_wellFormed) as (Hwf & _ & _).
  split; [reflexivity|exact Hwf].
Defined.

(** X19: when myFunction runs after [setTrigger], the trigger that
    [setTrigger] may have created is gone with every other trigger that calls
    myFunction, the triggers of other handlers are kept, and exactly one
    message, the greeting, is posted to SLACK_URL. *)
Theorem myFunction_after_setTrigger (host : services) (s : project) :
  wellFormed s ->
  triggers (myFunction host (setTrigger host s))
  = filter (fun t => negb (callsMyFunction t)) (triggers s)
  /\ posts (myFunction host (setTrigger host s))
     = posts s ++ [{| post_url := SLACK_URL host; post_text := greeting |}]
  /\ wellFormed (myFunction host (setTrigger host s)).
Proof.
  intros Hwf.
  pose proof (wellFormed_setTrigger host s Hwf) as Hwf1.
  pose proof (delTrigger_triggers _ Hwf1) as Hd.
  pose proof (wellFormed_delTrigger _ Hwf1) as Hwf2.
  unfold myFunction, postSlackMessage. cbn [triggers posts].
  split; [|split].
  - rewrite Hd.
    destruct (setTrigger_effect host s)
      as [(_ & -> & _)|(_ & k & _ & -> & _)]; [reflexivity|].
    rewrite filter_app. cbn [filter]. unfold callsMyFunction at 2.
    cbn [handler]. rewrite JSFacts.streq_refl. cbn [negb].
    apply app_nil_r.
  - f_equal. unfold delTrigger.
    destruct (deleteHandlers_triggers (triggers (setTrigger host s))
                (setTrigger host s)) as (_ & _ & _ & ->).
    now destruct (setTrigger_effect host s)
      as [(_ & _ & _ & ->)|(_ & k & _ & _ & _ & ->)].
  - destruct Hwf2 as [Hnd Hlt]. split; assumption.
Qed.

Lemma myFunction_after_setTrigger_witness :
  map handler (triggers (myFunction sampleServices
                           (setTrigger sampleServices sampleProject)))
  = [js "report"]
  /\ map post_text (posts (myFunction sampleServices
                             (setTrigger sampleServices sampleProject)))
     = [greeting].
Proof.
  destruct (myFunction_after_setTrigger sampleServices sampleProject
              sample_wellFormed) as (Ht & Hp & _).
  split; [now rewrite Ht|now rewrite Hp].
Defined.
